(** * tsl-sdr: the TSL string parsers and the FLEX pager decoder

    A shallow embedding of
      - [tsl_parse_mem_bytes] and [tsl_parse_time_interval] (the TSL parsers
        translation unit), and
      - the data model of [pager/pager_flex.h],
    with the properties the specification states about them. *)

From Stdlib Require Import ZArith List String Ascii Bool Lia.
Import ListNotations.

Local Open Scope Z_scope.

(** ** Machine integers *)

Definition ULLONG_MAX : Z := 2 ^ 64 - 1.

(** Truncation of a value to [uint64_t]. *)
Definition u64 (z : Z) : Z := z mod 2 ^ 64.

(** A C pointer is either [NULL] or designates an object; the object is
    carried along, so that a store through the pointer is a new [Ptr]. *)
Inductive pointer (A : Type) : Type :=
| NULL : pointer A
| Ptr (target : A) : pointer A.
Arguments NULL {A}.
Arguments Ptr {A} target.

(** [aresult_t]: the two codes the parsers return, and the code of a failed
    argument assertion. *)
Inductive aresult : Type :=
| A_OK
| A_E_INVAL
| A_E_BADARGS.

(** Modelled from the spec: the macro [TSL_ASSERT_ARG] of [tsl/assert.h] is
    not among the sources. Section 7 of the specification has a null pointer
    reported immediately as an invalid-argument error with no state mutated:
    a failed assertion makes the enclosing function return [A_E_BADARGS]
    ([Some]), a successful one lets it go on ([None]). *)
Definition TSL_ASSERT_ARG (cond : bool) : option aresult :=
  if cond then None else Some A_E_BADARGS.

Definition not_null {A : Type} (p : pointer A) : bool :=
  match p with
  | NULL => false
  | Ptr _ => true
  end.

(** * The parsers *)
Module Parsers.

(** A C string is the characters before its terminator: reading at the end
    yields the NUL character. *)
Definition deref (p : string) : ascii :=
  match p with
  | EmptyString => Ascii.zero
  | String c _ => c
  end.

(** [endptr++] *)
Definition next (p : string) : string :=
  match p with
  | EmptyString => EmptyString
  | String _ r => r
  end.

(** *** [strtoull(str, &endptr, 0)]

    The C library function (ISO C 7.22.1.4), base 0: white space, an optional
    sign, an optional [0x]/[0] prefix choosing the base, then the longest run
    of digits of that base. It returns the value and [endptr]. *)

Definition isspace (c : ascii) : bool :=
  match c with
  | " "%char | "009"%char | "010"%char | "011"%char | "012"%char
  | "013"%char => true
  | _ => false
  end.

Definition digit_val (c : ascii) : option Z :=
  (let n := Z.of_N (N_of_ascii c) in
   if (48 <=? n) && (n <=? 57) then Some (n - 48)
   else if (97 <=? n) && (n <=? 122) then Some (n - 87)
   else if (65 <=? n) && (n <=? 90) then Some (n - 55)
   else None)%Z.

Definition is_digit_of (base : Z) (c : ascii) : bool :=
  match digit_val c with
  | Some d => d <? base
  | None => false
  end.

Fixpoint skip_space (s : string) : string :=
  match s with
  | String c r => if isspace c then skip_space r else s
  | EmptyString => s
  end.

(** The digits of [s] in [base], accumulated on [acc]: the value, whether a
    digit was consumed, and the rest. *)
Fixpoint scan_digits (base acc : Z) (any : bool) (s : string)
  : Z * bool * string :=
  match s with
  | String c r =>
      match digit_val c with
      | Some d =>
          if d <? base then scan_digits base (acc * base + d) true r
          else (acc, any, s)
      | None => (acc, any, s)
      end
  | EmptyString => (acc, any, s)
  end.

Definition scan_sign (s : string) : bool * string :=
  match s with
  | String "-"%char r => (true, r)
  | String "+"%char r => (false, r)
  | _ => (false, s)
  end.

(** Base 0: [0x]/[0X] before a hexadecimal digit is base 16, another leading
    [0] is base 8 (the [0] itself is then the first digit), otherwise 10. *)
Definition scan_base (s : string) : Z * string :=
  match s with
  | String "0"%char (String x r) =>
      if (Ascii.eqb x "x"%char || Ascii.eqb x "X"%char)
         && is_digit_of 16 (deref r)
      then (16, r) else (8, s)
  | String "0"%char EmptyString => (8, s)
  | _ => (10, s)
  end.

Definition strtoull (str : string) : Z * string :=
  let '(neg, s1) := scan_sign (skip_space str) in
  let '(base, s2) := scan_base s1 in
  let '(acc, any, rest) := scan_digits base 0 false s2 in
  if any then
    ((if ULLONG_MAX <? acc then ULLONG_MAX
      else if neg then u64 (- acc) else acc), rest)
  else (0, str).

(** *** [tsl_parse_mem_bytes] *)

(** [memval <<= 10] on a [uint64_t]. *)
Definition shl10 (memval : Z) : Z := u64 (Z.shiftl memval 10).

(** The [switch] of [tsl_parse_mem_bytes]: each label falls through into the
    labels below it; [case 'K'] ends with [endptr++]. *)
Definition mem_case_K (memval : Z) (endptr : string) : Z * string :=
  (shl10 memval, next endptr).
Definition mem_case_M (memval : Z) (endptr : string) : Z * string :=
  mem_case_K (shl10 memval) endptr.
Definition mem_case_G (memval : Z) (endptr : string) : Z * string :=
  mem_case_M (shl10 memval) endptr.
Definition mem_case_T (memval : Z) (endptr : string) : Z * string :=
  mem_case_G (shl10 memval) endptr.
Definition mem_case_P (memval : Z) (endptr : string) : Z * string :=
  mem_case_T (shl10 memval) endptr.
Definition mem_case_E (memval : Z) (endptr : string) : Z * string :=
  mem_case_P (shl10 memval) endptr.

Definition mem_switch (memval : Z) (endptr : string) : Z * string :=
  match deref endptr with
  | "E"%char | "e"%char => mem_case_E memval endptr
  | "P"%char | "p"%char => mem_case_P memval endptr
  | "T"%char | "t"%char => mem_case_T memval endptr
  | "G"%char | "g"%char => mem_case_G memval endptr
  | "M"%char | "m"%char => mem_case_M memval endptr
  | "K"%char | "k"%char => mem_case_K memval endptr
  | _ => (memval, endptr)
  end.

(** Reading a string argument; reached with a checked pointer only. *)
Definition chars (str : pointer string) : string :=
  match str with
  | NULL => EmptyString
  | Ptr s => s
  end.

(** [*val = v]; reached with a checked pointer only. *)
Definition store {A : Type} (p : pointer A) (v : A) : pointer A :=
  match p with
  | NULL => NULL
  | Ptr _ => Ptr v
  end.

(** The result is the returned code and [val] with what it points to when
    the function returns. *)
Definition tsl_parse_mem_bytes (str : pointer string) (val : pointer Z)
  : aresult * pointer Z :=
  match TSL_ASSERT_ARG (not_null str), TSL_ASSERT_ARG (not_null val) with
  | Some e, _ => (e, val)
  | None, Some e => (e, val)
  | None, None =>
      let '(memval, endptr) := strtoull (chars str) in
      let '(memval, endptr) := mem_switch memval endptr in
      (A_OK, store val memval)
  end.

(** *** [tsl_parse_time_interval] *)

(** The [switch] on the character at [endptr]: the scaled number, or [None]
    at [default]. *)
Definition time_switch (n : Z) (c : ascii) : option Z :=
  match c with
  | "n"%char => Some n
  | "u"%char => Some (u64 (n * 1000))
  | "m"%char => Some (u64 (n * 1000000))
  | "s"%char => Some (u64 (n * 1000000000))
  | _ => None
  end.

(** ['\0' != *endptr || 's' != *endptr] *)
Definition time_final_check (c : ascii) : bool :=
  negb (Ascii.eqb Ascii.zero c) || negb (Ascii.eqb "s"%char c).

Definition tsl_parse_time_interval (str : pointer string) (val : pointer Z)
  : aresult * pointer Z :=
  match TSL_ASSERT_ARG (not_null str), TSL_ASSERT_ARG (not_null val) with
  | Some e, _ => (e, val)
  | None, Some e => (e, val)
  | None, None =>
      let '(n, endptr) := strtoull (chars str) in
      if (n =? 0) || Ascii.eqb (deref endptr) Ascii.zero then (A_OK, val)
      else
        match time_switch n (deref endptr) with
        | None => (A_E_INVAL, val)
        | Some n =>
            let endptr := next endptr in
            if time_final_check (deref endptr) then (A_E_INVAL, val)
            else (A_OK, store val n)
        end
  end.

(** *** Specification-side definitions *)

(** What the specification says [tsl_parse_mem_bytes] stores: the number
    shifted left by 10 bits per unit step, as a [uint64_t], and the number
    itself when the character after it is no unit. *)
Definition mem_scaled (n : Z) (c : ascii) : Z :=
  if Ascii.eqb c "K" || Ascii.eqb c "k" then u64 (Z.shiftl n 10)
  else if Ascii.eqb c "M" || Ascii.eqb c "m" then u64 (Z.shiftl n 20)
  else if Ascii.eqb c "G" || Ascii.eqb c "g" then u64 (Z.shiftl n 30)
  else if Ascii.eqb c "T" || Ascii.eqb c "t" then u64 (Z.shiftl n 40)
  else if Ascii.eqb c "P" || Ascii.eqb c "p" then u64 (Z.shiftl n 50)
  else if Ascii.eqb c "E" || Ascii.eqb c "e" then u64 (Z.shiftl n 60)
  else n.

(** The unit suffixes [tsl_parse_time_interval] recognises. *)
Definition time_unit (c : ascii) : Prop :=
  c = "n"%char \/ c = "u"%char \/ c = "m"%char \/ c = "s"%char.

(** *** Numerals

    The texts [strtoull] reads a number from in base 0: optional white
    space, an optional sign, then decimal digits not starting with [0], a
    [0] followed by octal digits, or [0x]/[0X] followed by hexadecimal
    digits. *)

Fixpoint all_space (s : string) : bool :=
  match s with
  | EmptyString => true
  | String c r => isspace c && all_space r
  end.

Fixpoint all_digits (base : Z) (s : string) : bool :=
  match s with
  | EmptyString => true
  | String c r => is_digit_of base c && all_digits base r
  end.

(** The value of the digits [s] in [base], after the digits of value
    [acc]. *)
Fixpoint digits_value (base acc : Z) (s : string) : Z :=
  match s with
  | EmptyString => acc
  | String c r =>
      match digit_val c with
      | Some d => digits_value base (acc * base + d) r
      | None => acc
      end
  end.

Inductive sign : Type := NoSign | Plus | Minus.

Definition sign_text (sg : sign) : string :=
  match sg with
  | NoSign => EmptyString
  | Plus => String "+"%char EmptyString
  | Minus => String "-"%char EmptyString
  end.

Inductive numeral_form : Type := Decimal | Octal | Hexadecimal (upper : bool).

Definition numeral_base (form : numeral_form) : Z :=
  match form with
  | Decimal => 10
  | Octal => 8
  | Hexadecimal _ => 16
  end.

Definition numeral_prefix (form : numeral_form) : string :=
  match form with
  | Decimal => EmptyString
  | Octal => String "0"%char EmptyString
  | Hexadecimal false => String "0"%char (String "x"%char EmptyString)
  | Hexadecimal true => String "0"%char (String "X"%char EmptyString)
  end.

(** The digits [s] are a numeral of the form: not empty, digits of the
    base, and a decimal numeral does not start with [0]. *)
Definition numeral_digits (form : numeral_form) (s : string) : bool :=
  all_digits (numeral_base form) s
  && match s with
     | EmptyString => false
     | String c _ =>
         match form with
         | Decimal => negb (Ascii.eqb c "0"%char)
         | _ => true
         end
     end.

Definition numeral_text (ws : string) (sg : sign) (form : numeral_form)
  (s : string) : string :=
  (ws ++ sign_text sg ++ numeral_prefix form ++ s)%string.

Definition numeral_value (form : numeral_form) (s : string) : Z :=
  digits_value (numeral_base form) 0 s.

(** The number [strtoull] returns for digits of value [v] after a sign. *)
Definition number_read (sg : sign) (v : Z) : Z :=
  if ULLONG_MAX <? v then ULLONG_MAX
  else match sg with
       | Minus => u64 (- v)
       | _ => v
       end.

(** The bits [tsl_parse_mem_bytes] shifts by for the character after the
    number. *)
Definition mem_shift (c : ascii) : Z :=
  if Ascii.eqb c "K" || Ascii.eqb c "k" then 10
  else if Ascii.eqb c "M" || Ascii.eqb c "m" then 20
  else if Ascii.eqb c "G" || Ascii.eqb c "g" then 30
  else if Ascii.eqb c "T" || Ascii.eqb c "t" then 40
  else if Ascii.eqb c "P" || Ascii.eqb c "p" then 50
  else if Ascii.eqb c "E" || Ascii.eqb c "e" then 60
  else 0.

(** A text with no number at its start: empty, or starting with a character
    that is no white space, sign or decimal digit. *)
Definition no_number (s : string) : bool :=
  match s with
  | EmptyString => true
  | String c _ =>
      negb (isspace c) && negb (Ascii.eqb c "+"%char)
      && negb (Ascii.eqb c "-"%char) && negb (is_digit_of 10 c)
  end.

End Parsers.

(** * The BCH(31,23) code *)
Module Bch.

Definition CODEWORD_BITS : nat := 31.
Definition DATA_BITS : nat := 23.
Definition CHECK_BITS : nat := 8.

Definition is_word (w : Z) : Prop := 0 <= w < 2 ^ 31.
Definition is_data (d : Z) : Prop := 0 <= d < 2 ^ 23.

(** The number of bits set among the low [n] bits of [w]. *)
Fixpoint popcount (n : nat) (w : Z) : Z :=
  match n with
  | O => 0
  | S n' => Z.b2z (Z.testbit w (Z.of_nat n')) + popcount n' w
  end.

(** The number of bit positions in which two 31-bit words differ. *)
Definition hamming (x y : Z) : Z := popcount CODEWORD_BITS (Z.lxor x y).

(** Modelled from the spec: [struct bch_code] is declared in
    [pager_flex.h] and defined nowhere in the sources. Section 4.1 gives its
    contract: the code encodes 23 data bits into a 31-bit codeword, and the
    decoder takes a 31-bit received word to the corrected data with a success
    indication ([Some]) or to the distinguished failure ([None]); it is a
    pure function of its input. *)
Record bch_code : Type := {
  bch_encode : Z -> Z;
  bch_decode : Z -> option Z
}.

Definition bch_well_formed (code : bch_code) : Prop :=
  forall d, is_data d -> is_word (bch_encode code d).

(** "every received word differing from it in at most [t] bit positions
    decodes to the original 23 data bits, with success" *)
Definition bch_corrects (t : Z) (code : bch_code) : Prop :=
  forall d w, is_data d -> is_word w ->
    hamming (bch_encode code d) w <= t -> bch_decode code w = Some d.

(** "every received word with more than [t] bit errors is reported as a
    failure" *)
Definition bch_flags (t : Z) (code : bch_code) : Prop :=
  forall d w, is_data d -> is_word w ->
    t < hamming (bch_encode code d) w -> bch_decode code w = None.

(** Modelled from the spec: a codeword is "23 data bits + 8 parity/check
    bits" (section 3): the data bits above the check bits, which are a
    function [parity] of the data. *)
Definition codeword (parity : Z -> Z) (d : Z) : Z :=
  Z.lor (Z.shiftl d 8) (parity d).

Definition is_codeword (parity : Z -> Z) (w : Z) : bool :=
  parity (Z.shiftr w 8) =? Z.land w 255.

(** [w] with bit [i] inverted. *)
Definition flip (w : Z) (i : nat) : Z := Z.lxor w (Z.shiftl 1 (Z.of_nat i)).

Definition first_some {A B : Type} (f : A -> option B) (l : list A)
  : option B :=
  fold_right (fun x r => match f x with Some y => Some y | None => r end)
    None l.

(** A word at most [t] bit inversions away from [w] that is [good]. *)
Fixpoint nearest (good : Z -> bool) (t : nat) (w : Z) : option Z :=
  if good w then Some w
  else
    match t with
    | O => None
    | S t' =>
        first_some (fun i => nearest good t' (flip w i)) (seq 0 CODEWORD_BITS)
    end.

(** Modelled from the spec: the decoder of section 4.1 corrects up to the
    correction capacity [t] of the code and otherwise signals "codeword
    unrecoverable": it looks for a codeword at most [t] bit inversions away
    from the received word, and returns the data bits of that codeword. *)
Definition decode (parity : Z -> Z) (t : nat) (w : Z) : option Z :=
  option_map (fun c => Z.shiftr c 8) (nearest (is_codeword parity) t w).

Definition systematic_code (parity : Z -> Z) (t : nat) : bch_code :=
  {| bch_encode := codeword parity; bch_decode := decode parity t |}.

(** The exclusive or of the columns [h] whose bit [i] is set in [d]. *)
Fixpoint column_sum (d : Z) (l : list (nat * Z)) : Z :=
  match l with
  | [] => 0
  | (i, h) :: r =>
      if Z.testbit d (Z.of_nat i) then Z.lxor h (column_sum d r)
      else column_sum d r
  end.

(** A linear check function: the exclusive or of one 8-bit column per data
    bit set. *)
Definition parity_of_columns (columns : list Z) (d : Z) : Z :=
  column_sum d (combine (seq 0 (List.length columns)) columns).

(** 23 distinct columns with two bits or more set. *)
Definition distance_3_columns : list Z :=
  [3; 5; 6; 7; 9; 10; 11; 12; 13; 14; 15; 17; 18; 19; 20; 21; 22; 23; 24;
   25; 26; 27; 28].

(** The codewords of [parity] other than the one of the data word 0. *)
Definition nonzero_codeword (parity : Z -> Z) (w : Z) : bool :=
  is_codeword parity w && negb (Z.shiftr w 8 =? 0).

(** The 31-bit words with at most 2 bits set. *)
Definition error_patterns_2 : list Z :=
  0 :: flat_map
         (fun i => Z.shiftl 1 (Z.of_nat i)
                   :: map (fun j => Z.lor (Z.shiftl 1 (Z.of_nat i))
                                      (Z.shiftl 1 (Z.of_nat j)))
                        (seq (S i) (CODEWORD_BITS - S i)))
         (seq 0 CODEWORD_BITS).

Fixpoint nodupb (l : list Z) : bool :=
  match l with
  | [] => true
  | x :: r => negb (existsb (Z.eqb x) r) && nodupb r
  end.

(** The claim on a decoder of 31-bit words carrying 23 data bits: up to 2
    bit errors are corrected, more are reported. *)
Definition corrects_2_and_flags_more (code : bch_code) : Prop :=
  bch_well_formed code /\ bch_corrects 2 code /\ bch_flags 2 code.

End Bch.

(** * The FLEX pager decoder *)
Module Flex.
Import Bch.

Definition u8 (z : Z) : Z := z mod 2 ^ 8.
Definition u16 (z : Z) : Z := z mod 2 ^ 16.
Definition u32 (z : Z) : Z := z mod 2 ^ 32.
Definition s16 (z : Z) : Z := (z + 2 ^ 15) mod 2 ^ 16 - 2 ^ 15.
Definition s32 (z : Z) : Z := (z + 2 ^ 31) mod 2 ^ 32 - 2 ^ 31.

(** ** The declarations of [pager_flex.h] *)

Inductive pager_flex_msg_type : Type :=
| PAGER_FLEX_UNKNOWN
| PAGER_FLEX_ALPHANUMERIC
| PAGER_FLEX_NUMERIC
| PAGER_FLEX_TONE.

Inductive pager_flex_modulation : Type :=
| PAGER_FLEX_MODULATION_2FSK
| PAGER_FLEX_MODULATION_4FSK.

Inductive pager_flex_state : Type :=
| PAGER_FLEX_STATE_SYNC_1
| PAGER_FLEX_STATE_SYNC_2
| PAGER_FLEX_STATE_BLOCK.

(** The arguments of one call of a [pager_flex_on_message_cb_t] (the
    decoder itself apart). *)
Record on_message_call : Type := mk_call {
  cb_baud : Z;
  cb_phase : ascii;
  cb_cap_code : Z;
  cb_message_type : pager_flex_msg_type;
  cb_message_bytes : pointer string;
  cb_message_len : Z
}.

Definition pager_flex_on_message_cb_t : Type := on_message_call -> aresult.

Inductive pager_flex_sync_state : Type :=
| PAGER_FLEX_SYNC_STATE_SEARCH_BS1
| PAGER_FLEX_SYNC_STATE_BS1
| PAGER_FLEX_SYNC_STATE_A
| PAGER_FLEX_SYNC_STATE_B
| PAGER_FLEX_SYNC_STATE_INV_A
| PAGER_FLEX_SYNC_STATE_FIW
| PAGER_FLEX_SYNC_STATE_SYNCED.

(** Modelled from the spec: [struct pager_flex_coding] is declared and not
    defined in the sources. Section 4.2 has a table of valid A words, "each
    mapped to a baud rate and modulation". *)
Record pager_flex_coding : Type := mk_coding {
  coding_sync_a : Z;
  coding_baud : Z;
  coding_modulation : pager_flex_modulation
}.

(** [struct pager_flex_sync]. [sync_words] is an array of 10 words: here
    the entries in use, the oldest first. *)
Record pager_flex_sync : Type := mk_sync {
  sync_words : list Z;
  sync_state : pager_flex_sync_state;
  sample_counter : Z;
  bit_counter : Z;
  a : Z;
  b : Z;
  inv_a : Z;
  fiw : Z;
  coding : pointer pager_flex_coding
}.

Inductive pager_flex_sync_2_state : Type :=
| PAGER_FLEX_SYNC_2_STATE_COMMA
| PAGER_FLEX_SYNC_2_STATE_C
| PAGER_FLEX_SYNC_2_STATE_INV_COMMA
| PAGER_FLEX_SYNC_2_STATE_INV_C
| PAGER_FLEX_SYNC_2_STATE_SYNCED.

(** [struct pager_flex_sync_2] *)
Record pager_flex_sync_2 : Type := mk_sync_2 {
  sync_2_state : pager_flex_sync_2_state;
  nr_dots : Z;
  c : Z;
  nr_c : Z;
  range_avg_sum_high : Z;
  range_avg_sum_low : Z;
  range_avg_count_high : Z;
  range_avg_count_low : Z
}.

(** Modelled from the spec: the header of a message, which section 4.5 has
    assembled from the decoded data words: "capcode, message type, phase",
    and the declared word count of the body. *)
Record message_header : Type := mk_header {
  hdr_phase : ascii;
  hdr_cap_code : Z;
  hdr_type : pager_flex_msg_type;
  hdr_nr_words : nat
}.

(** Modelled from the spec: the state of the block stage of section 4.5,
    for which [struct pager_flex] declares no field: the bits of the
    codeword being received, and the header and body words of the message
    being assembled. *)
Record pager_flex_block : Type := mk_block {
  cw : Z;
  cw_bits : Z;
  header : option message_header;
  body : list Z
}.

(** [struct pager_flex], and the block stage with it. *)
Record pager_flex : Type := mk_flex {
  slice_range_high : Z;
  slice_range_low : Z;
  on_msg : pager_flex_on_message_cb_t;
  sync : pager_flex_sync;
  sync_2 : pager_flex_sync_2;
  bch : bch_code;
  baud_rate : Z;
  modulation : pager_flex_modulation;
  symbol_counter : Z;
  state : pager_flex_state;
  skip : Z;
  skip_count : Z;
  symbol_samples : Z;
  freq_hz : Z;
  block : pager_flex_block
}.

(** Modelled from the spec: the tables and constants of [pager_flex.c],
    which is not among the sources; the specification names them and gives
    no value. *)
Record flex_params : Type := {
  (** the known table of valid A words (4.2) *)
  a_words : list pager_flex_coding;
  (** the "small Hamming-distance tolerance" of the sync words (4.2) *)
  sync_tolerance : Z;
  (** the "internal checksum/parity" of the frame information word (4.2) *)
  fiw_valid : Z -> bool;
  (** the "fixed number of dot samples" of a comma (4.3) *)
  nr_comma_dots : Z;
  (** the "minimum discrimination margin" between the levels (4.3) *)
  min_discrimination : Z;
  (** the symbols of the blocks of one frame (4.5) *)
  frame_symbols : Z;
  (** the message header a data word carries (4.5) *)
  parse_header : Z -> message_header;
  (** the ASCII rendering of the body words of a message (4.5) *)
  render_alphanumeric : list Z -> string;
  render_numeric : list Z -> string;
  (** the raw words after correction, as bytes (4.5) *)
  render_words : list Z -> string
}.

(** ** Field updates *)

Definition set_sync_words v s :=
  mk_sync v (sync_state s) (sample_counter s) (bit_counter s) (a s) (b s)
    (inv_a s) (fiw s) (coding s).
Definition set_sync_state v s :=
  mk_sync (sync_words s) v (sample_counter s) (bit_counter s) (a s) (b s)
    (inv_a s) (fiw s) (coding s).
Definition set_sample_counter v s :=
  mk_sync (sync_words s) (sync_state s) v (bit_counter s) (a s) (b s)
    (inv_a s) (fiw s) (coding s).
Definition set_bit_counter v s :=
  mk_sync (sync_words s) (sync_state s) (sample_counter s) v (a s) (b s)
    (inv_a s) (fiw s) (coding s).
Definition set_a v s :=
  mk_sync (sync_words s) (sync_state s) (sample_counter s) (bit_counter s) v
    (b s) (inv_a s) (fiw s) (coding s).
Definition set_b v s :=
  mk_sync (sync_words s) (sync_state s) (sample_counter s) (bit_counter s)
    (a s) v (inv_a s) (fiw s) (coding s).
Definition set_inv_a v s :=
  mk_sync (sync_words s) (sync_state s) (sample_counter s) (bit_counter s)
    (a s) (b s) v (fiw s) (coding s).
Definition set_fiw v s :=
  mk_sync (sync_words s) (sync_state s) (sample_counter s) (bit_counter s)
    (a s) (b s) (inv_a s) v (coding s).
Definition set_coding v s :=
  mk_sync (sync_words s) (sync_state s) (sample_counter s) (bit_counter s)
    (a s) (b s) (inv_a s) (fiw s) v.

Definition set_sync v f :=
  mk_flex (slice_range_high f) (slice_range_low f) (on_msg f) v (sync_2 f)
    (bch f) (baud_rate f) (modulation f) (symbol_counter f) (state f)
    (skip f) (skip_count f) (symbol_samples f) (freq_hz f) (block f).
Definition set_sync_2 v f :=
  mk_flex (slice_range_high f) (slice_range_low f) (on_msg f) (sync f) v
    (bch f) (baud_rate f) (modulation f) (symbol_counter f) (state f)
    (skip f) (skip_count f) (symbol_samples f) (freq_hz f) (block f).
Definition set_skip_count v f :=
  mk_flex (slice_range_high f) (slice_range_low f) (on_msg f) (sync f)
    (sync_2 f) (bch f) (baud_rate f) (modulation f) (symbol_counter f)
    (state f) (skip f) v (symbol_samples f) (freq_hz f) (block f).

(** ** Bits and words *)

(** [acc = (acc << 1) | bit] on an accumulator of [width] bits. *)
Definition shift_in (width : Z) (acc : Z) (bit : bool) : Z :=
  Z.lor (Z.shiftl acc 1) (Z.b2z bit) mod 2 ^ width.

(** The bit positions in which two 32-bit sync words differ. *)
Definition hamming32 (x y : Z) : Z := popcount 32 (Z.lxor x y).

(** The bitwise complement of a 32-bit word. *)
Definition lnot32 (x : Z) : Z := Z.lxor x 0xFFFFFFFF.

(** Slicing "against a fixed threshold": a sample above zero is a 1. *)
Definition slice_2fsk (sample : Z) : bool := 0 <? sample.

(** ** The Sync 1 tracker (section 4.2) *)

(** The input is at 16 kHz and Sync 1 is sent at 1600 bits per second. *)
Definition SAMPLE_RATE : Z := 16000.
Definition SYNC_1_BAUD : Z := 1600.
Definition SYNC_1_SAMPLES_PER_BIT : Z := SAMPLE_RATE / SYNC_1_BAUD.

(** The capacity of [sync_words]. *)
Definition NR_SYNC_WORDS : nat := 10.

(** Modelled from the spec: the accumulated sync words are a history that
    "never exceeds 10 entries (oldest discarded on overflow - ring
    behavior)". The newest word is last. *)
Definition sync_words_push (w : Z) (h : list Z) : list Z :=
  if (List.length h <? NR_SYNC_WORDS)%nat then h ++ [w] else tl h ++ [w].

Definition pager_flex_sync_init : pager_flex_sync :=
  mk_sync [] PAGER_FLEX_SYNC_STATE_SEARCH_BS1 0 0 0 0 0 0 NULL.

(** Modelled from the spec: a failed validation "resets to SEARCH_BITSYNC",
    the tracker being "reset to initial sub-state whenever validation
    fails", "with no leaked counters affecting the next attempt"; the words
    accumulated so far stay in the history. *)
Definition sync_reset (s : pager_flex_sync) : pager_flex_sync :=
  mk_sync (sync_words s) PAGER_FLEX_SYNC_STATE_SEARCH_BS1 0 0 0 0 0 0 NULL.

(** The bitsync preamble 1010.../0101..., within the tolerance. *)
Definition bitsync_match (P : flex_params) (w : Z) : bool :=
  (hamming32 w 0xAAAAAAAA <=? sync_tolerance P)
  || (hamming32 w 0x55555555 <=? sync_tolerance P).

(** The A word of the table that [w] is, within the tolerance. *)
Definition find_coding (P : flex_params) (w : Z) : option pager_flex_coding :=
  find (fun cd => hamming32 w (coding_sync_a cd) <=? sync_tolerance P)
    (a_words P).

(** Modelled from the spec: one bit through the Sync 1 state machine of
    section 4.2, on the states of [enum pager_flex_sync_state]. The search
    slides a 32-bit window over the bits until it is the bitsync preamble
    (BS1); the 32 bits after it are the candidate A word (A), looked up in
    the table; then come the 16 bits of the B word (not validated), the 32
    bits that must be the complement of the A word, and the 32 bits of the
    frame information word. Each completed word enters the history; a failed
    validation resets the tracker. *)
Definition sync_on_bit (P : flex_params) (s : pager_flex_sync) (bit : bool)
  : pager_flex_sync :=
  match sync_state s with
  | PAGER_FLEX_SYNC_STATE_SEARCH_BS1 =>
      let w := shift_in 32 (a s) bit in
      if bitsync_match P w
      then set_sync_state PAGER_FLEX_SYNC_STATE_BS1 (set_a 0 s)
      else set_a w s
  | PAGER_FLEX_SYNC_STATE_BS1
  | PAGER_FLEX_SYNC_STATE_A =>
      let w := shift_in 32 (a s) bit in
      let n := u8 (bit_counter s + 1) in
      if n <? 32
      then set_sync_state PAGER_FLEX_SYNC_STATE_A
             (set_a w (set_bit_counter n s))
      else
        let s := set_sync_words (sync_words_push w (sync_words s)) s in
        match find_coding P w with
        | Some cd =>
            set_sync_state PAGER_FLEX_SYNC_STATE_B
              (set_a w (set_bit_counter 0 (set_coding (Ptr cd) s)))
        | None => sync_reset s
        end
  | PAGER_FLEX_SYNC_STATE_B =>
      let w := shift_in 16 (b s) bit in
      let n := u8 (bit_counter s + 1) in
      if n <? 16 then set_b w (set_bit_counter n s)
      else
        let s := set_sync_words (sync_words_push w (sync_words s)) s in
        set_sync_state PAGER_FLEX_SYNC_STATE_INV_A
          (set_b w (set_bit_counter 0 s))
  | PAGER_FLEX_SYNC_STATE_INV_A =>
      let w := shift_in 32 (inv_a s) bit in
      let n := u8 (bit_counter s + 1) in
      if n <? 32 then set_inv_a w (set_bit_counter n s)
      else
        let s := set_sync_words (sync_words_push w (sync_words s)) s in
        if hamming32 w (lnot32 (a s)) <=? sync_tolerance P
        then set_sync_state PAGER_FLEX_SYNC_STATE_FIW
               (set_inv_a w (set_bit_counter 0 s))
        else sync_reset s
  | PAGER_FLEX_SYNC_STATE_FIW =>
      let w := shift_in 32 (fiw s) bit in
      let n := u8 (bit_counter s + 1) in
      if n <? 32 then set_fiw w (set_bit_counter n s)
      else
        let s := set_sync_words (sync_words_push w (sync_words s)) s in
        if fiw_valid P w
        then set_sync_state PAGER_FLEX_SYNC_STATE_SYNCED
               (set_fiw w (set_bit_counter 0 s))
        else sync_reset s
  | PAGER_FLEX_SYNC_STATE_SYNCED => s
  end.

(** Modelled from the spec: the tracker takes one sample at a time; the
    last sample of each bit period, sliced, is the bit. *)
Definition pager_flex_sync_update (P : flex_params) (s : pager_flex_sync)
  (sample : Z) : pager_flex_sync :=
  let n := u8 (sample_counter s + 1) in
  if n <? SYNC_1_SAMPLES_PER_BIT then set_sample_counter n s
  else sync_on_bit P (set_sample_counter 0 s) (slice_2fsk sample).

(** ** The Sync 2 tracker (section 4.3) *)

Definition pager_flex_sync_2_init : pager_flex_sync_2 :=
  mk_sync_2 PAGER_FLEX_SYNC_2_STATE_COMMA 0 0 0 0 0 0 0.

(** Modelled from the spec: a dot sample above the midpoint is added to the
    high sum, another to the low sum, "each with their own counts"; after
    the fixed number of dots the tracker goes on to [next]. *)
Definition sync_2_dot (P : flex_params) (s : pager_flex_sync_2) (sample : Z)
  (next : pager_flex_sync_2_state) : pager_flex_sync_2 :=
  let sh := if 0 <? sample then s32 (range_avg_sum_high s + sample)
            else range_avg_sum_high s in
  let ch := if 0 <? sample then u32 (range_avg_count_high s + 1)
            else range_avg_count_high s in
  let sl := if 0 <? sample then range_avg_sum_low s
            else s32 (range_avg_sum_low s + sample) in
  let cl := if 0 <? sample then range_avg_count_low s
            else u32 (range_avg_count_low s + 1) in
  let n := u16 (nr_dots s + 1) in
  if n <? nr_comma_dots P
  then mk_sync_2 (sync_2_state s) n (c s) (nr_c s) sh sl ch cl
  else mk_sync_2 next 0 (c s) (nr_c s) sh sl ch cl.

(** Modelled from the spec: the 16 bits of the C pattern are accumulated
    "for diagnostic/confidence purposes only - not gating". *)
Definition sync_2_c (s : pager_flex_sync_2) (bit : bool)
  (next : pager_flex_sync_2_state) : pager_flex_sync_2 :=
  let w := shift_in 16 (c s) bit in
  let n := u8 (nr_c s + 1) in
  if n <? 16
  then mk_sync_2 (sync_2_state s) (nr_dots s) w n (range_avg_sum_high s)
         (range_avg_sum_low s) (range_avg_count_high s)
         (range_avg_count_low s)
  else mk_sync_2 next (nr_dots s) w 0 (range_avg_sum_high s)
         (range_avg_sum_low s) (range_avg_count_high s)
         (range_avg_count_low s).

(** Modelled from the spec: COMMA, C, INV_COMMA, INV_C, SYNCED. *)
Definition pager_flex_sync_2_update (P : flex_params)
  (s : pager_flex_sync_2) (sample : Z) : pager_flex_sync_2 :=
  match sync_2_state s with
  | PAGER_FLEX_SYNC_2_STATE_COMMA =>
      sync_2_dot P s sample PAGER_FLEX_SYNC_2_STATE_C
  | PAGER_FLEX_SYNC_2_STATE_C =>
      sync_2_c s (slice_2fsk sample) PAGER_FLEX_SYNC_2_STATE_INV_COMMA
  | PAGER_FLEX_SYNC_2_STATE_INV_COMMA =>
      sync_2_dot P s sample PAGER_FLEX_SYNC_2_STATE_INV_C
  | PAGER_FLEX_SYNC_2_STATE_INV_C =>
      sync_2_c s (slice_2fsk sample) PAGER_FLEX_SYNC_2_STATE_SYNCED
  | PAGER_FLEX_SYNC_2_STATE_SYNCED => s
  end.

(** [sum / count] in C for the types [pager_flex.h] declares, [int32_t sum]
    and [unsigned count]: the sum is converted to [unsigned], the division
    is the unsigned one, and a division by 0 has no result. *)
Definition div_int32_unsigned (sum count : Z) : option Z :=
  if count =? 0 then None else Some (u32 sum / count).

(** Modelled from the spec: the averages of section 4.3,
    [range_avg_sum_high / range_avg_count_high] and [range_avg_sum_low /
    range_avg_count_low], on the types of [struct pager_flex_sync_2] and
    stored in an [int16_t] as [slice_range_high] and [slice_range_low] are.
    A count of 0 is the latent division by zero the specification notes. *)
Definition range_avg_high (s : pager_flex_sync_2) : option Z :=
  option_map s16
    (div_int32_unsigned (range_avg_sum_high s) (range_avg_count_high s)).
Definition range_avg_low (s : pager_flex_sync_2) : option Z :=
  option_map s16
    (div_int32_unsigned (range_avg_sum_low s) (range_avg_count_low s)).

(** ** The symbol slicer (section 4.4) *)

Definition bits_per_symbol (m : pager_flex_modulation) : Z :=
  match m with
  | PAGER_FLEX_MODULATION_2FSK => 1
  | PAGER_FLEX_MODULATION_4FSK => 2
  end.

(** Modelled from the spec: 2FSK is "above/below zero"; 4FSK compares
    "against slice_range_high, zero, slice_range_low, partitioning the
    amplitude axis into four bands". The symbol is its bits, first to
    last. *)
Definition pager_flex_slice (m : pager_flex_modulation) (high low : Z)
  (sample : Z) : list bool :=
  match m with
  | PAGER_FLEX_MODULATION_2FSK => [0 <? sample]
  | PAGER_FLEX_MODULATION_4FSK =>
      if high <? sample then [true; true]
      else if 0 <? sample then [true; false]
      else if low <? sample then [false; true]
      else [false; false]
  end.

(** ** The block stage (section 4.5) *)

Definition pager_flex_block_init : pager_flex_block := mk_block 0 0 None [].

(** Modelled from the spec: what the callback is invoked with for a
    completed message: "(baud, phase, cap_code, msg_type, message_bytes,
    message_len)"; the body words rendered as ASCII for ALPHANUMERIC and
    NUMERIC, "a null message body and length 0" for TONE, "the raw
    post-correction words" for UNKNOWN. *)
Definition message_call (P : flex_params) (baud : Z) (h : message_header)
  (words : list Z) : on_message_call :=
  let call bytes len :=
    mk_call baud (hdr_phase h) (hdr_cap_code h) (hdr_type h) bytes len in
  let text str := call (Ptr str) (Z.of_nat (String.length str)) in
  match hdr_type h with
  | PAGER_FLEX_TONE => call NULL 0
  | PAGER_FLEX_ALPHANUMERIC => text (render_alphanumeric P words)
  | PAGER_FLEX_NUMERIC => text (render_numeric P words)
  | PAGER_FLEX_UNKNOWN => text (render_words P words)
  end.

(** Modelled from the spec: a decoded data word is the header of a new
    message or the next body word of the message being assembled. *)
Definition assemble (P : flex_params) (blk : pager_flex_block) (w : Z)
  : message_header * list Z :=
  match header blk with
  | None => (parse_header P w, [])
  | Some h => (h, body blk ++ [w])
  end.

(** Modelled from the spec: the "message completion criteria (declared word
    count reached)". *)
Definition message_complete (h : message_header) (words : list Z) : bool :=
  (hdr_nr_words h <=? List.length words)%nat.

(** Modelled from the spec: the callback is invoked when a data word
    completes a message, and the next data word starts a new one. *)
Definition block_on_word (P : flex_params) (baud : Z)
  (blk : pager_flex_block) (w : Z)
  : pager_flex_block * list on_message_call :=
  let '(h, words) := assemble P blk w in
  if message_complete h words
  then (mk_block (cw blk) (cw_bits blk) None [],
        [message_call P baud h words])
  else (mk_block (cw blk) (cw_bits blk) (Some h) words, []).

(** Modelled from the spec: the block stage "accumulates symbols into 31-bit
    BCH codewords, applies the BCH decoder per codeword"; an uncorrectable
    codeword is "lost data": "drop word, continue accumulating". *)
Definition block_on_bit (P : flex_params) (code : bch_code) (baud : Z)
  (st : pager_flex_block * list on_message_call) (bit : bool)
  : pager_flex_block * list on_message_call :=
  let '(blk, calls) := st in
  let w := shift_in 31 (cw blk) bit in
  let n := cw_bits blk + 1 in
  if n <? 31 then (mk_block w n (header blk) (body blk), calls)
  else
    let blk := mk_block 0 0 (header blk) (body blk) in
    match bch_decode code w with
    | Some d =>
        let '(blk, calls') := block_on_word P baud blk d in
        (blk, calls ++ calls')
    | None => (blk, calls)
    end.

Definition block_on_symbol (P : flex_params) (code : bch_code) (baud : Z)
  (blk : pager_flex_block) (symbol : list bool)
  : pager_flex_block * list on_message_call :=
  fold_left (block_on_bit P code baud) symbol (blk, []).

(** ** The top-level state machine (section 4.5) *)

(** Samples per symbol at 16 kHz. *)
Definition samples_per_symbol (baud : Z) (m : pager_flex_modulation) : Z :=
  u16 (SAMPLE_RATE / (baud / bits_per_symbol m)).

(** Modelled from the spec: once Sync 1 is SYNCED "the parent decoder reads
    the results and transitions itself to Sync2, then rebuilds a fresh Sync1
    tracker for next use"; the Sync 2 tracker is "created fresh at Sync2
    entry". The results are the baud rate and modulation of the matched A
    word. *)
Definition enter_sync_2 (f : pager_flex) (s : pager_flex_sync) : pager_flex :=
  let baud := match coding s with
              | Ptr cd => u16 (coding_baud cd)
              | NULL => baud_rate f
              end in
  let m := match coding s with
           | Ptr cd => coding_modulation cd
           | NULL => modulation f
           end in
  let n := samples_per_symbol baud m in
  mk_flex (slice_range_high f) (slice_range_low f) (on_msg f)
    pager_flex_sync_init pager_flex_sync_2_init (bch f) baud m 0
    PAGER_FLEX_STATE_SYNC_2 (u16 (n - 1)) 0 n (freq_hz f) (block f).

(** Modelled from the spec: at SYNCED the final averages are written "into
    the decoder's slice_range_high/low", and the decoder goes to BLOCK "with
    4FSK slicing active if separation between high and low exceeds a minimum
    discrimination margin, otherwise falls back to 2FSK". There is no
    result when a division has none. *)
Definition enter_block (P : flex_params) (f : pager_flex)
  : option pager_flex :=
  match range_avg_high (sync_2 f), range_avg_low (sync_2 f) with
  | Some high, Some low =>
      let m := if min_discrimination P <? high - low
               then PAGER_FLEX_MODULATION_4FSK
               else PAGER_FLEX_MODULATION_2FSK in
      Some (mk_flex high low (on_msg f) (sync f) (sync_2 f) (bch f)
              (baud_rate f) m 0 PAGER_FLEX_STATE_BLOCK (skip f)
              (skip_count f) (symbol_samples f) (freq_hz f)
              pager_flex_block_init)
  | _, _ => None
  end.

(** Modelled from the spec: "back to SYNC_1 after a frame/cycle completes";
    the modulation "always starts in 2FSK". *)
Definition enter_sync_1 (f : pager_flex) : pager_flex :=
  mk_flex (slice_range_high f) (slice_range_low f) (on_msg f)
    pager_flex_sync_init (sync_2 f) (bch f) (baud_rate f)
    PAGER_FLEX_MODULATION_2FSK 0 PAGER_FLEX_STATE_SYNC_1 (skip f)
    (skip_count f) (symbol_samples f) (freq_hz f) (block f).

(** One symbol of the block stage. *)
Definition block_update (P : flex_params) (f : pager_flex) (sample : Z)
  : pager_flex * list on_message_call :=
  let symbol := pager_flex_slice (modulation f) (slice_range_high f)
                  (slice_range_low f) sample in
  let '(blk, calls) :=
    block_on_symbol P (bch f) (baud_rate f) (block f) symbol in
  let n := u32 (symbol_counter f + 1) in
  let f := mk_flex (slice_range_high f) (slice_range_low f) (on_msg f)
             (sync f) (sync_2 f) (bch f) (baud_rate f) (modulation f) n
             (state f) (skip f) (skip_count f) (symbol_samples f)
             (freq_hz f) blk in
  (if frame_symbols P <=? n then enter_sync_1 f else f, calls).

(** Modelled from the spec: the decoder feeds "exactly one sample to
    whichever sub-state is active, and whichever sub-stage signals a
    transition causes immediate reconfiguration". Sync 2 and the blocks take
    one sample per symbol and skip the samples between. The result is the
    decoder and the callback invocations made, in order; there is none when
    the step divides by 0. *)
Definition pager_flex_on_sample (P : flex_params) (f : pager_flex)
  (sample : Z) : option (pager_flex * list on_message_call) :=
  match state f with
  | PAGER_FLEX_STATE_SYNC_1 =>
      let s := pager_flex_sync_update P (sync f) sample in
      match sync_state s with
      | PAGER_FLEX_SYNC_STATE_SYNCED => Some (enter_sync_2 f s, [])
      | _ => Some (set_sync s f, [])
      end
  | PAGER_FLEX_STATE_SYNC_2 =>
      if skip_count f <? skip f
      then Some (set_skip_count (u16 (skip_count f + 1)) f, [])
      else
        let f := set_skip_count 0 f in
        let s := pager_flex_sync_2_update P (sync_2 f) sample in
        match sync_2_state s with
        | PAGER_FLEX_SYNC_2_STATE_SYNCED =>
            option_map (fun f' => (f', [])) (enter_block P (set_sync_2 s f))
        | _ => Some (set_sync_2 s f, [])
        end
  | PAGER_FLEX_STATE_BLOCK =>
      if skip_count f <? skip f
      then Some (set_skip_count (u16 (skip_count f + 1)) f, [])
      else Some (block_update P (set_skip_count 0 f) sample)
  end.

(** The loop of [pager_flex_on_pcm] over the samples of one call: the
    decoder after the last sample, or none when a step had no result, and
    the callback invocations made. *)
Fixpoint on_pcm_loop (P : flex_params) (f : pager_flex) (samples : list Z)
  : option pager_flex * list on_message_call :=
  match samples with
  | [] => (Some f, [])
  | x :: rest =>
      match pager_flex_on_sample P f x with
      | Some (f1, calls1) =>
          let '(r, calls2) := on_pcm_loop P f1 rest in
          (r, calls1 ++ calls2)
      | None => (None, [])
      end
  end.

(** Modelled from the spec: [pager_flex_on_pcm], declared in [pager_flex.h];
    [pcm_samples] and [nr_samples] are the list of samples. Null arguments
    are invalid-argument errors; otherwise every sample is consumed, the
    decoder keeps all state between calls, and a failing callback does not
    alter it. The result is what the call returns and leaves in [*flex], if
    it returns, and the callback invocations made. *)
Definition pager_flex_on_pcm (P : flex_params) (flex : pointer pager_flex)
  (pcm_samples : pointer (list Z))
  : option (aresult * pointer pager_flex) * list on_message_call :=
  match flex, pcm_samples with
  | Ptr f, Ptr samples =>
      let '(r, calls) := on_pcm_loop P f samples in
      (option_map (fun f' => (A_OK, Ptr f')) r, calls)
  | _, _ => (Some (A_E_BADARGS, flex), [])
  end.

(** Modelled from the spec: [pager_flex_new], declared in [pager_flex.h]:
    a decoder for one channel, in Sync 1 and 2FSK, with fresh trackers; the
    frequency is record keeping only. *)
Definition pager_flex_new (code : bch_code) (freq_hz : Z)
  (on_msg : pointer pager_flex_on_message_cb_t)
  : aresult * pointer pager_flex :=
  match on_msg with
  | NULL => (A_E_BADARGS, NULL)
  | Ptr cb =>
      (A_OK,
       Ptr (mk_flex 0 0 cb pager_flex_sync_init pager_flex_sync_2_init code
              0 PAGER_FLEX_MODULATION_2FSK 0 PAGER_FLEX_STATE_SYNC_1 0 0
              SYNC_1_SAMPLES_PER_BIT (u32 freq_hz) pager_flex_block_init))
  end.


(** The decoders reached from a new one by samples pushed in. *)
Inductive reachable (P : flex_params) : pager_flex -> Prop :=
| reachable_new code freq_hz on_msg f :
    pager_flex_new code freq_hz on_msg = (A_OK, Ptr f) ->
    reachable P f
| reachable_sample f sample f' calls :
    reachable P f ->
    pager_flex_on_sample P f sample = Some (f', calls) ->
    reachable P f'.

(** ** Specification-side definitions *)

(** A callback invocation for a TONE message has a null body of length 0. *)
Definition tone_call (call : on_message_call) : Prop :=
  cb_message_type call = PAGER_FLEX_TONE ->
  cb_message_bytes call = NULL /\ cb_message_len call = 0.

(** A step that takes the decoder from Sync 2 to the blocks. *)
Definition sync_2_to_block (f f' : pager_flex) : Prop :=
  state f = PAGER_FLEX_STATE_SYNC_2 /\ state f' = PAGER_FLEX_STATE_BLOCK.

(** The history of sync words is within its capacity. *)
Definition history_bounded (s : pager_flex_sync) : Prop :=
  (List.length (sync_words s) <= NR_SYNC_WORDS)%nat.

(** The bit of one bit period: its last sample, sliced. *)
Definition period_bit (period : list Z) : bool := slice_2fsk (last period 0).

(** ** Example parameters *)

(** The most significant [width] bits first, as samples of a 2FSK signal. *)
Definition samples_of_word (width : nat) (w : Z) : list Z :=
  map (fun i => if Z.testbit w (Z.of_nat i) then 1000 else -1000)
    (rev (seq 0 width)).

Definition example_header (w : Z) : message_header :=
  mk_header "A"%char (Z.shiftr w 4)
    (match w mod 4 with
     | 1 => PAGER_FLEX_ALPHANUMERIC
     | 2 => PAGER_FLEX_NUMERIC
     | 3 => PAGER_FLEX_TONE
     | _ => PAGER_FLEX_UNKNOWN
     end)
    (Z.to_nat (Z.shiftr w 2 mod 4)).

Definition example_params : flex_params :=
  {| a_words := [mk_coding 0x870CA6C6 1600 PAGER_FLEX_MODULATION_2FSK;
                 mk_coding 0xB068A6C6 3200 PAGER_FLEX_MODULATION_4FSK];
     sync_tolerance := 2;
     fiw_valid := fun w => Z.even (popcount 32 w);
     nr_comma_dots := 16;
     min_discrimination := 20000;
     frame_symbols := 2816;
     parse_header := example_header;
     render_alphanumeric := fun words => EmptyString;
     render_numeric := fun words => EmptyString;
     render_words := fun words => EmptyString |}.

Definition example_code : bch_code :=
  systematic_code (parity_of_columns distance_3_columns) 1.

Definition example_callback : pager_flex_on_message_cb_t := fun _ => A_OK.

(** A decoder receiving blocks at one sample per symbol. *)
Definition example_block_decoder : pager_flex :=
  mk_flex 4000 (-4000) example_callback pager_flex_sync_init
    pager_flex_sync_2_init example_code 1600 PAGER_FLEX_MODULATION_2FSK 0
    PAGER_FLEX_STATE_BLOCK 0 0 1 929612500 pager_flex_block_init.

(** A decoder one bit before the end of Sync 2. *)
Definition example_sync_2_decoder : pager_flex :=
  mk_flex 0 0 example_callback pager_flex_sync_init
    (mk_sync_2 PAGER_FLEX_SYNC_2_STATE_INV_C 0 0 15 64000 (-48001) 16 16)
    example_code 1600 PAGER_FLEX_MODULATION_2FSK 0 PAGER_FLEX_STATE_SYNC_2
    0 0 1 929612500 pager_flex_block_init.

(** A tracker that matched the A word and the B word. *)
Definition example_inv_a_tracker : pager_flex_sync :=
  mk_sync [0x870CA6C6; 0x1234] PAGER_FLEX_SYNC_STATE_INV_A 0 0 0x870CA6C6
    0x1234 0 0
    (Ptr (mk_coding 0x870CA6C6 1600 PAGER_FLEX_MODULATION_2FSK)).

(** A new decoder. *)
Definition example_new_decoder : pager_flex :=
  mk_flex 0 0 example_callback pager_flex_sync_init pager_flex_sync_2_init
    example_code 0 PAGER_FLEX_MODULATION_2FSK 0 PAGER_FLEX_STATE_SYNC_1 0 0
    SYNC_1_SAMPLES_PER_BIT 929612500 pager_flex_block_init.

(** A word at 1600 bits per second: 10 samples per bit. *)
Definition sync_1_samples (width : nat) (w : Z) : list Z :=
  flat_map (fun x => repeat x 10) (samples_of_word width w).

(** A Sync 1 attempt that fails at the inverted A word: the preamble, the A
    word, a B word, and the A word again where its complement is due. *)
Definition failed_attempt : list Z :=
  sync_1_samples 27 0x5555555 ++ sync_1_samples 32 0x870CA6C6
  ++ sync_1_samples 16 0x1234 ++ sync_1_samples 32 0x870CA6C6.

(** Four such attempts in a row. *)
Definition failed_attempts : list Z :=
  failed_attempt ++ failed_attempt ++ failed_attempt ++ failed_attempt.

End Flex.

(** * The build script *)
Module Wscript.

Local Open Scope string_scope.
Local Open Scope list_scope.

(** The command line options [options] declares: [-d]/[--debug] and
    [-D]/[--tsl-debug], both [store_true]. *)
Record build_options : Type := {
  debug : bool;
  tsl_debug : bool
}.

(** The variables of [conf.env] that [configure] touches. *)
Record build_env : Type := mk_env {
  CFLAGS : list string;
  DEFINES : list string;
  INCLUDES : list string;
  LIBPATH : list string;
  LIB : list string;
  LDFLAGS : list string;
  ASFLAGS : list string;
  ENVIRONMENT : option string
}.

(** One call of [conf.msg]: the message, the result and the colour. *)
Record message : Type := mk_msg {
  msg_title : string;
  msg_text : string;
  msg_color : string
}.

(** [conf.env.CFLAGS += flags] and its likes. *)
Definition add_CFLAGS (l : list string) (e : build_env) : build_env :=
  mk_env (CFLAGS e ++ l) (DEFINES e) (INCLUDES e) (LIBPATH e) (LIB e)
    (LDFLAGS e) (ASFLAGS e) (ENVIRONMENT e).
Definition add_DEFINES (l : list string) (e : build_env) : build_env :=
  mk_env (CFLAGS e) (DEFINES e ++ l) (INCLUDES e) (LIBPATH e) (LIB e)
    (LDFLAGS e) (ASFLAGS e) (ENVIRONMENT e).
Definition add_INCLUDES (l : list string) (e : build_env) : build_env :=
  mk_env (CFLAGS e) (DEFINES e) (INCLUDES e ++ l) (LIBPATH e) (LIB e)
    (LDFLAGS e) (ASFLAGS e) (ENVIRONMENT e).
Definition add_LIBPATH (l : list string) (e : build_env) : build_env :=
  mk_env (CFLAGS e) (DEFINES e) (INCLUDES e) (LIBPATH e ++ l) (LIB e)
    (LDFLAGS e) (ASFLAGS e) (ENVIRONMENT e).
Definition add_LIB (l : list string) (e : build_env) : build_env :=
  mk_env (CFLAGS e) (DEFINES e) (INCLUDES e) (LIBPATH e) (LIB e ++ l)
    (LDFLAGS e) (ASFLAGS e) (ENVIRONMENT e).
Definition add_LDFLAGS (l : list string) (e : build_env) : build_env :=
  mk_env (CFLAGS e) (DEFINES e) (INCLUDES e) (LIBPATH e) (LIB e)
    (LDFLAGS e ++ l) (ASFLAGS e) (ENVIRONMENT e).
Definition add_ASFLAGS (l : list string) (e : build_env) : build_env :=
  mk_env (CFLAGS e) (DEFINES e) (INCLUDES e) (LIBPATH e) (LIB e)
    (LDFLAGS e) (ASFLAGS e ++ l) (ENVIRONMENT e).
Definition set_ENVIRONMENT (v : string) (e : build_env) : build_env :=
  mk_env (CFLAGS e) (DEFINES e) (INCLUDES e) (LIBPATH e) (LIB e)
    (LDFLAGS e) (ASFLAGS e) (Some v).

(** ['*' * 20] *)
Fixpoint times (c : ascii) (n : nat) : string :=
  match n with
  | O => EmptyString
  | S n' => String c (times c n')
  end.

Definition double_quote : string := String "034"%char EmptyString.

(** The flags every build gets. *)
Definition common_CFLAGS : list string :=
  ["-g3"; "-gdwarf-4"; "-Wall"; "-Wundef"; "-Wstrict-prototypes";
   "-Wmissing-prototypes"; "-Wno-trigraphs"; "-fno-strict-aliasing";
   "-fno-common"; "-Werror-implicit-function-declaration";
   "-Wno-format-security"; "-fno-delete-null-pointer-checks";
   "-Wuninitialized"; "-Wmissing-include-dirs"; "-Wshadow";
   "-Wframe-larger-than=2047"; "-std=c11"; "-g"; "-rdynamic"].

(** [configure], after [_loadTools] set up the tools in [conf.env]: the
    environment it leaves and the messages it prints, in order. *)
Definition configure (options : build_options) (e : build_env)
  : build_env * list message :=
  let e := add_CFLAGS common_CFLAGS e in
  let e := add_DEFINES ["_ATS_IN_TREE"; "_GNU_SOURCE";
                        "SYS_CACHE_LINE_LENGTH=64"] e in
  let e := add_INCLUDES ["."] e in
  let e := add_LIBPATH ["/usr/lib/x86_64-linux-gnu"] e in
  let e := add_LIB ["pthread"; "rt"; "jansson"; "dl"] e in
  let e := add_LDFLAGS ["-rdynamic"] e in
  let e := add_ASFLAGS ["-f"; "elf64"] e in
  let '(e, msgs) :=
    if debug options then
      let stars := times "*" 20 in
      (add_CFLAGS ["-O0"] (set_ENVIRONMENT "debug" e),
       [mk_msg "Build environment" (stars ++ " DEBUG " ++ stars)%string "RED"])
    else
      let stars := times "$" 20 in
      (add_CFLAGS ["-O2"; "-march=native"; "-mtune=native"]
         (set_ENVIRONMENT "release" e),
       [mk_msg "Build environment" (stars ++ " RELEASE " ++ stars)%string "BOLD"])
  in
  let '(e, msgs) :=
    if debug options || tsl_debug options then
      (add_DEFINES ["_TSL_DEBUG"] e,
       msgs ++ [mk_msg "Defining" "_TSL_DEBUG" "CYAN"])
    else (e, msgs) in
  let e := if debug options then add_DEFINES ["_AWESOME_PANIC_MESSAGE"] e
           else add_DEFINES ["NDEBUG"] e in
  let e := add_DEFINES ["TSL_POINTER_SIZE=8"] e in
  let e := add_DEFINES [("CONFIG_DIRECTORY_DEFAULT=" ++ double_quote
                         ++ "/etc/tsl" ++ double_quote)%string] e in
  (e, msgs).

(** [l] is the beginning of [l']. *)
Definition extends {A : Type} (l l' : list A) : Prop :=
  exists added, l' = l ++ added.

(** Membership of a string, computed. *)
Definition mem (x : string) (l : list string) : bool :=
  existsb (String.eqb x) l.

(** An environment in which no optimisation level and none of the
    defines that tell debug and release builds apart is set yet. *)
Definition unconfigured (e : build_env) : Prop :=
  ~ In "-O0" (CFLAGS e) /\ ~ In "-O2" (CFLAGS e)
  /\ ~ In "NDEBUG" (DEFINES e) /\ ~ In "_TSL_DEBUG" (DEFINES e)
  /\ ~ In "_AWESOME_PANIC_MESSAGE" (DEFINES e).

End Wscript.

(* ################################################################# *)
(** * Properties of the parsers *)

Module ParsersFacts.
Import Parsers.

(** ** The functions on some inputs *)

Example strtoull_hex : strtoull "0x1fG" = (31, "G"%string).
Proof. reflexivity. Qed.

Example strtoull_no_digits : strtoull "  abc" = (0, "  abc"%string).
Proof. reflexivity. Qed.

Example mem_bytes_10K :
  tsl_parse_mem_bytes (Ptr "10K"%string) (Ptr 0) = (A_OK, Ptr 10240).
Proof. reflexivity. Qed.

Example mem_bytes_1E :
  tsl_parse_mem_bytes (Ptr "1e"%string) (Ptr 0) = (A_OK, Ptr (2 ^ 60)).
Proof. reflexivity. Qed.

Example mem_bytes_16E_wraps :
  tsl_parse_mem_bytes (Ptr "16E"%string) (Ptr 7) = (A_OK, Ptr 0).
Proof. reflexivity. Qed.

Example mem_bytes_other_suffix :
  tsl_parse_mem_bytes (Ptr "3q"%string) (Ptr 0) = (A_OK, Ptr 3).
Proof. reflexivity. Qed.

Example time_interval_seconds :
  tsl_parse_time_interval (Ptr "3s"%string) (Ptr 7) = (A_E_INVAL, Ptr 7).
Proof. reflexivity. Qed.

Example time_interval_bare_number :
  tsl_parse_time_interval (Ptr "3"%string) (Ptr 7) = (A_OK, Ptr 7).
Proof. reflexivity. Qed.

Example time_interval_unknown_unit :
  tsl_parse_time_interval (Ptr "3x"%string) (Ptr 7) = (A_E_INVAL, Ptr 7).
Proof. reflexivity. Qed.

(** ** The memory units *)

Lemma u64_shiftl_shl10 (m k : Z) :
  0 <= k -> shl10 (u64 (Z.shiftl m k)) = u64 (Z.shiftl m (k + 10)).
Proof.
  intros Hk. unfold shl10, u64.
  rewrite !Z.shiftl_mul_pow2 by lia.
  rewrite Z.mul_mod_idemp_l by lia.
  rewrite Z.pow_add_r by lia. f_equal. ring.
Qed.

Lemma shl10_2 m : shl10 (shl10 m) = u64 (Z.shiftl m 20).
Proof.
  change (shl10 m) with (u64 (Z.shiftl m 10)).
  now rewrite u64_shiftl_shl10.
Qed.

Lemma shl10_3 m : shl10 (shl10 (shl10 m)) = u64 (Z.shiftl m 30).
Proof. rewrite (shl10_2 m). now rewrite u64_shiftl_shl10. Qed.

Lemma shl10_4 m : shl10 (shl10 (shl10 (shl10 m))) = u64 (Z.shiftl m 40).
Proof. rewrite (shl10_3 m). now rewrite u64_shiftl_shl10. Qed.

Lemma shl10_5 m :
  shl10 (shl10 (shl10 (shl10 (shl10 m)))) = u64 (Z.shiftl m 50).
Proof. rewrite (shl10_4 m). now rewrite u64_shiftl_shl10. Qed.

Lemma shl10_6 m :
  shl10 (shl10 (shl10 (shl10 (shl10 (shl10 m))))) = u64 (Z.shiftl m 60).
Proof. rewrite (shl10_5 m). now rewrite u64_shiftl_shl10. Qed.

(** The fall-through cascade of the [switch] is one shift by the unit. *)
Lemma mem_switch_scaled (memval : Z) (endptr : string) :
  fst (mem_switch memval endptr) = mem_scaled memval (deref endptr).
Proof.
  unfold mem_switch, mem_scaled.
  destruct (deref endptr) as [[] [] [] [] [] [] [] []]; cbn;
    unfold mem_case_E, mem_case_P, mem_case_T, mem_case_G, mem_case_M,
      mem_case_K; cbn [fst];
    first [ reflexivity | apply shl10_2 | apply shl10_3 | apply shl10_4
          | apply shl10_5 | apply shl10_6 ].
Qed.

(** C10. For non-null arguments [tsl_parse_mem_bytes] returns [A_OK] and
    stores in [*val] the number [strtoull] parsed, shifted left (as a
    [uint64_t]) by 10 for [K]/[k], 20 for [M]/[m], 30 for [G]/[g], 40 for
    [T]/[t], 50 for [P]/[p], 60 for [E]/[e], and unscaled for every other
    character after the number; it returns no error. *)
Theorem tsl_parse_mem_bytes_scales (s : string) (old n : Z) (rest : string) :
  strtoull s = (n, rest) ->
  tsl_parse_mem_bytes (Ptr s) (Ptr old)
  = (A_OK, Ptr (mem_scaled n (deref rest))).
Proof.
  intros Hn. unfold tsl_parse_mem_bytes. cbn. rewrite Hn.
  pose proof (mem_switch_scaled n rest) as Hsw.
  destruct (mem_switch n rest) as [memval endptr]. cbn in Hsw.
  now subst memval.
Qed.

Lemma tsl_parse_mem_bytes_scales_witness :
  strtoull "10K" = (10, "K"%string)
  /\ tsl_parse_mem_bytes (Ptr "10K"%string) (Ptr 7) = (A_OK, Ptr 10240).
Proof.
  split; [reflexivity |].
  exact (tsl_parse_mem_bytes_scales "10K" 7 10 "K" eq_refl).
Defined.

(** C8. A call of either parser with a null [str] or a null [val] returns
    the invalid-argument error at once, and [val] and what it points to are
    as before. *)
Theorem parsers_reject_null (str : pointer string) (val : pointer Z) :
  str = NULL \/ val = NULL ->
  tsl_parse_mem_bytes str val = (A_E_BADARGS, val)
  /\ tsl_parse_time_interval str val = (A_E_BADARGS, val).
Proof.
  intros [-> | ->]; [split; reflexivity |].
  destruct str; split; reflexivity.
Qed.

Lemma parsers_reject_null_witness :
  tsl_parse_mem_bytes NULL (Ptr 7) = (A_E_BADARGS, Ptr 7)
  /\ tsl_parse_time_interval NULL (Ptr 7) = (A_E_BADARGS, Ptr 7).
Proof. exact (parsers_reject_null NULL (Ptr 7) (or_introl eq_refl)). Defined.

(** The final check holds of every character: no character is both the
    terminator and [s]. *)
Lemma time_final_check_always (c : ascii) : time_final_check c = true.
Proof.
  unfold time_final_check.
  destruct (Ascii.eqb_spec Ascii.zero c) as [<- | _]; reflexivity.
Qed.

Lemma time_switch_unit (n : Z) (c : ascii) :
  time_unit c <-> time_switch n c <> None.
Proof.
  unfold time_unit. split.
  - intros [-> | [-> | [-> | ->]]]; discriminate.
  - destruct c as [[] [] [] [] [] [] [] []]; cbn; intros H;
      try (now exfalso; apply H); auto.
Qed.

(** C3. The check ['\0' != *endptr || 's' != *endptr] is true of every
    character other than [s], so a call that parses a number other than 0
    followed by one of the units [n], [u], [m], [s] returns [A_E_INVAL] and
    stores nothing in [*val]. *)
Theorem tsl_parse_time_interval_unit_rejected :
  (forall c : ascii, c <> "s"%char -> time_final_check c = true)
  /\ (forall (s : string) (old n : Z) (rest : string),
         strtoull s = (n, rest) -> n <> 0 -> time_unit (deref rest) ->
         tsl_parse_time_interval (Ptr s) (Ptr old) = (A_E_INVAL, Ptr old)).
Proof.
  split; [intros c _; apply time_final_check_always |].
  intros s old n rest Hn Hnz Hunit.
  unfold tsl_parse_time_interval. cbn. rewrite Hn.
  apply Z.eqb_neq in Hnz. rewrite Hnz. cbn [orb].
  destruct (Ascii.eqb_spec (deref rest) Ascii.zero) as [Hz | _].
  - rewrite Hz in Hunit. destruct Hunit as [H | [H | [H | H]]];
      discriminate H.
  - apply (time_switch_unit n) in Hunit.
    destruct (time_switch n (deref rest)); [| now elim Hunit].
    now rewrite time_final_check_always.
Qed.

Lemma tsl_parse_time_interval_unit_rejected_witness :
  time_final_check "x" = true
  /\ tsl_parse_time_interval (Ptr "3ms"%string) (Ptr 7) = (A_E_INVAL, Ptr 7).
Proof.
  split.
  - apply (proj1 tsl_parse_time_interval_unit_rejected). discriminate.
  - apply (proj2 tsl_parse_time_interval_unit_rejected "3ms"%string 7 3
             "ms"%string).
    + reflexivity.
    + discriminate.
    + right. right. left. reflexivity.
Defined.

(** C9. For non-null arguments, when the parsed number is 0 or the number is
    followed by the terminator, [tsl_parse_time_interval] returns [A_OK] and
    leaves [*val] as it was; and [*val] is as it was after every call that
    does not go through a unit suffix after a number other than 0. *)
Theorem tsl_parse_time_interval_no_store
  (s : string) (old n : Z) (rest : string) :
  strtoull s = (n, rest) ->
  ((n = 0 \/ deref rest = Ascii.zero) ->
   tsl_parse_time_interval (Ptr s) (Ptr old) = (A_OK, Ptr old))
  /\ ((n = 0 \/ ~ time_unit (deref rest)) ->
      snd (tsl_parse_time_interval (Ptr s) (Ptr old)) = Ptr old).
Proof.
  intros Hn. unfold tsl_parse_time_interval. cbn. rewrite Hn. split.
  - intros [-> | ->]; [reflexivity |].
    rewrite Ascii.eqb_refl. now rewrite orb_true_r.
  - intros H.
    destruct ((n =? 0) || Ascii.eqb (deref rest) Ascii.zero);
      [reflexivity |].
    destruct (time_switch n (deref rest)) eqn:Hsw; [| reflexivity].
    now rewrite time_final_check_always.
Qed.

Lemma tsl_parse_time_interval_no_store_witness :
  strtoull "5" = (5, ""%string)
  /\ tsl_parse_time_interval (Ptr "5"%string) (Ptr 7) = (A_OK, Ptr 7)
  /\ snd (tsl_parse_time_interval (Ptr "5"%string) (Ptr 7)) = Ptr 7.
Proof.
  pose proof (tsl_parse_time_interval_no_store "5" 7 5 "" eq_refl)
    as [H1 H2].
  split; [reflexivity |]. split.
  - apply H1. right. reflexivity.
  - apply H2. right. intros [H | [H | [H | H]]]; discriminate H.
Defined.

End ParsersFacts.

(* ################################################################# *)
(** * Properties of the BCH code *)

Module BchFacts.
Import Bch.

(** ** Bits *)

Lemma popcount_nonneg (n : nat) (w : Z) : 0 <= popcount n w.
Proof.
  induction n as [| n IH]; cbn [popcount]; [lia |].
  destruct (Z.testbit w (Z.of_nat n)); cbn [Z.b2z]; lia.
Qed.

Lemma popcount_ext (n : nat) (x y : Z) :
  (forall i, (i < n)%nat -> Z.testbit x (Z.of_nat i) = Z.testbit y (Z.of_nat i)) ->
  popcount n x = popcount n y.
Proof.
  induction n as [| n IH]; intros Hbits; cbn [popcount]; [reflexivity |].
  rewrite (Hbits n) by lia. rewrite IH; [reflexivity |].
  intros i Hi. apply Hbits. lia.
Qed.

Lemma popcount_lxor_le (n : nat) (x y : Z) :
  popcount n (Z.lxor x y) <= popcount n x + popcount n y.
Proof.
  induction n as [| n IH]; cbn [popcount]; [lia |].
  rewrite Z.lxor_spec.
  destruct (Z.testbit x (Z.of_nat n)), (Z.testbit y (Z.of_nat n));
    cbn [xorb Z.b2z]; lia.
Qed.

Lemma popcount_zero_bits (n : nat) (w : Z) :
  popcount n w = 0 ->
  forall i, (i < n)%nat -> Z.testbit w (Z.of_nat i) = false.
Proof.
  induction n as [| n IH]; cbn [popcount]; intros Hw i Hi; [lia |].
  pose proof (popcount_nonneg n w) as Hn.
  destruct (Z.testbit w (Z.of_nat n)) eqn:Hb; cbn [Z.b2z] in Hw; [lia |].
  destruct (Nat.eq_dec i n) as [-> | Hne]; [exact Hb |].
  apply IH; lia.
Qed.

Lemma popcount_pos_bit (n : nat) (w : Z) :
  0 < popcount n w ->
  exists i, (i < n)%nat /\ Z.testbit w (Z.of_nat i) = true.
Proof.
  induction n as [| n IH]; cbn [popcount]; intros Hw; [lia |].
  destruct (Z.testbit w (Z.of_nat n)) eqn:Hb.
  - exists n. split; [lia | exact Hb].
  - cbn [Z.b2z] in Hw. destruct IH as [i [Hi Hbit]]; [lia |].
    exists i. split; [lia | exact Hbit].
Qed.

Lemma testbit_bit (i j : nat) :
  Z.testbit (Z.shiftl 1 (Z.of_nat i)) (Z.of_nat j) = Nat.eqb i j.
Proof.
  rewrite Z.shiftl_1_l.
  destruct (Nat.eqb_spec i j) as [-> | Hne].
  - apply Z.pow2_bits_true. lia.
  - apply Z.pow2_bits_false. lia.
Qed.

(** Inverting a bit that is set takes one off the count. *)
Lemma popcount_flip_set (n : nat) (e : Z) (i : nat) :
  (i < n)%nat -> Z.testbit e (Z.of_nat i) = true ->
  popcount n (Z.lxor e (Z.shiftl 1 (Z.of_nat i))) = popcount n e - 1.
Proof.
  induction n as [| n IH]; intros Hi Hbit; [lia |].
  cbn [popcount]. rewrite Z.lxor_spec, testbit_bit.
  destruct (Nat.eqb_spec i n) as [-> | Hne].
  - rewrite Hbit. cbn [xorb Z.b2z].
    rewrite (popcount_ext n _ e); [lia |].
    intros j Hj. rewrite Z.lxor_spec, testbit_bit.
    destruct (Nat.eqb_spec n j); [lia |]. now rewrite xorb_false_r.
  - rewrite xorb_false_r, IH by (assumption || lia). lia.
Qed.

Lemma popcount_bit (n i : nat) :
  popcount n (Z.shiftl 1 (Z.of_nat i)) <= 1.
Proof.
  induction n as [| n IH]; cbn [popcount]; [lia |].
  rewrite testbit_bit.
  destruct (Nat.eqb_spec i n) as [-> | Hne]; cbn [Z.b2z]; [| lia].
  rewrite (popcount_ext n _ 0); [| intros j Hj; rewrite testbit_bit, Z.bits_0;
                                   destruct (Nat.eqb_spec n j); [lia | easy]].
  clear IH. induction n as [| n IH]; cbn [popcount]; [lia |].
  rewrite Z.bits_0. cbn [Z.b2z]. lia.
Qed.

Lemma word_high_bits (k w i : Z) :
  0 <= w < 2 ^ k -> k <= i -> Z.testbit w i = false.
Proof.
  intros Hw Hi.
  assert (Hk : 0 <= k).
  { destruct (Z.lt_ge_cases k 0) as [Hneg | Hpos]; [| exact Hpos].
    rewrite Z.pow_neg_r in Hw by exact Hneg. lia. }
  rewrite <- (Z.mod_small w (2 ^ k)) by lia.
  apply Z.mod_pow2_bits_high. lia.
Qed.

Lemma word_of_bits (k w : Z) :
  0 <= k -> (forall i, k <= i -> Z.testbit w i = false) -> 0 <= w < 2 ^ k.
Proof.
  intros Hk Hhigh.
  assert (Hmod : w mod 2 ^ k = w).
  { apply Z.bits_inj'. intros i Hi.
    destruct (Z.lt_ge_cases i k) as [Hlt | Hge].
    - now rewrite Z.mod_pow2_bits_low.
    - rewrite Z.mod_pow2_bits_high by lia. symmetry. now apply Hhigh. }
  rewrite <- Hmod. apply Z.mod_pos_bound. lia.
Qed.

Lemma lxor_range (k x y : Z) :
  0 <= k -> 0 <= x < 2 ^ k -> 0 <= y < 2 ^ k -> 0 <= Z.lxor x y < 2 ^ k.
Proof.
  intros Hk Hx Hy. apply word_of_bits; [assumption |].
  intros i Hi. rewrite Z.lxor_spec.
  now rewrite (word_high_bits k x i), (word_high_bits k y i).
Qed.

(** ** Distances *)

Lemma hamming_sym (x y : Z) : hamming x y = hamming y x.
Proof. unfold hamming. now rewrite Z.lxor_comm. Qed.

Lemma hamming_nonneg (x y : Z) : 0 <= hamming x y.
Proof. apply popcount_nonneg. Qed.

Lemma hamming_refl (x : Z) : hamming x x = 0.
Proof.
  unfold hamming. rewrite Z.lxor_nilpotent.
  generalize CODEWORD_BITS. intros n.
  induction n as [| n IH]; cbn [popcount]; [reflexivity |].
  now rewrite Z.bits_0, IH.
Qed.

Lemma hamming_triangle (x y z : Z) :
  hamming x z <= hamming x y + hamming y z.
Proof.
  unfold hamming.
  replace (Z.lxor x z) with (Z.lxor (Z.lxor x y) (Z.lxor y z)).
  - apply popcount_lxor_le.
  - rewrite Z.lxor_assoc, <- (Z.lxor_assoc y y z), Z.lxor_nilpotent.
    now rewrite Z.lxor_0_l.
Qed.

Lemma hamming_zero (x y : Z) :
  is_word x -> is_word y -> hamming x y = 0 -> x = y.
Proof.
  unfold is_word, hamming. intros Hx Hy Hd.
  apply Z.bits_inj'. intros i Hi.
  destruct (Z.lt_ge_cases i 31) as [Hlt | Hge].
  - pose proof (popcount_zero_bits _ _ Hd (Z.to_nat i)) as Hbit.
    rewrite Z2Nat.id, Z.lxor_spec in Hbit by exact Hi.
    apply xorb_eq. apply Hbit. unfold CODEWORD_BITS. lia.
  - now rewrite (word_high_bits 31 x i), (word_high_bits 31 y i).
Qed.

Lemma hamming_lxor (c e : Z) :
  hamming c (Z.lxor c e) = popcount CODEWORD_BITS e.
Proof.
  unfold hamming.
  now rewrite <- Z.lxor_assoc, Z.lxor_nilpotent, Z.lxor_0_l.
Qed.

Lemma flip_word (w : Z) (i : nat) :
  (i < CODEWORD_BITS)%nat -> is_word w -> is_word (flip w i).
Proof.
  unfold is_word, flip, CODEWORD_BITS. intros Hi Hw.
  apply lxor_range; [lia | exact Hw |].
  rewrite Z.shiftl_1_l. split; [apply Z.pow_nonneg; lia |].
  apply Z.pow_lt_mono_r; lia.
Qed.

Lemma hamming_flip_le (w c : Z) (i : nat) :
  hamming w c <= hamming (flip w i) c + 1.
Proof.
  pose proof (hamming_triangle w (flip w i) c) as Ht.
  assert (Hone : hamming w (flip w i) <= 1)
    by (unfold flip; rewrite hamming_lxor; apply popcount_bit).
  lia.
Qed.

Lemma hamming_flip_closer (w c : Z) (i : nat) :
  (i < CODEWORD_BITS)%nat ->
  Z.testbit (Z.lxor w c) (Z.of_nat i) = true ->
  hamming (flip w i) c = hamming w c - 1.
Proof.
  intros Hi Hbit. unfold hamming, flip.
  replace (Z.lxor (Z.lxor w (Z.shiftl 1 (Z.of_nat i))) c)
    with (Z.lxor (Z.lxor w c) (Z.shiftl 1 (Z.of_nat i))).
  - now apply popcount_flip_set.
  - rewrite !Z.lxor_assoc. f_equal. apply Z.lxor_comm.
Qed.

(** ** The search for a near word *)

Lemma first_some_found {A B : Type} (f : A -> option B) (l : list A) (x : A) :
  In x l -> f x <> None -> first_some f l <> None.
Proof.
  induction l as [| y l IH]; intros Hin Hx; [destruct Hin |].
  cbn [first_some fold_right]. destruct (f y) eqn:Hy; [discriminate |].
  destruct Hin as [-> | Hin]; [contradiction |].
  now apply IH.
Qed.

Lemma first_some_inv {A B : Type} (f : A -> option B) (l : list A) (r : B) :
  first_some f l = Some r -> exists x, In x l /\ f x = Some r.
Proof.
  induction l as [| y l IH]; [discriminate |].
  cbn [first_some fold_right]. destruct (f y) eqn:Hy.
  - intros [= <-]. exists y. split; [now left | exact Hy].
  - intros H. destruct (IH H) as [x [Hin Hx]].
    exists x. split; [now right | exact Hx].
Qed.

(** What the search returns is good, within [t] bits of [w], and a 31-bit
    word if [w] is. *)
Lemma nearest_sound (good : Z -> bool) (t : nat) :
  forall w c,
    nearest good t w = Some c ->
    good c = true /\ hamming w c <= Z.of_nat t /\ (is_word w -> is_word c).
Proof.
  induction t as [| t IH]; intros w c; cbn [nearest];
    destruct (good w) eqn:Hg.
  - intros [= <-]. rewrite hamming_refl. split; [| split]; auto; lia.
  - discriminate.
  - intros [= <-]. rewrite hamming_refl. split; [| split]; auto; lia.
  - intros H. apply first_some_inv in H as [i [Hin Hi]].
    apply in_seq in Hin. destruct (IH _ _ Hi) as [Hgc [Hd Hw]].
    split; [exact Hgc |]. split.
    + pose proof (hamming_flip_le w c i). lia.
    + intros Hword. apply Hw. apply flip_word; [lia | exact Hword].
Qed.

(** The search finds a word whenever a good word is within [t] bits. *)
Lemma nearest_complete (good : Z -> bool) (t : nat) :
  forall w c,
    is_word w -> is_word c -> good c = true ->
    hamming w c <= Z.of_nat t -> nearest good t w <> None.
Proof.
  induction t as [| t IH]; intros w c Hw Hc Hg Hd; cbn [nearest];
    destruct (good w) eqn:Hgw; try discriminate.
  - pose proof (hamming_nonneg w c).
    rewrite (hamming_zero w c) in Hgw by (assumption || lia). congruence.
  - destruct (Z.eq_dec (hamming w c) 0) as [Hz | Hnz].
    { rewrite (hamming_zero w c) in Hgw by assumption. congruence. }
    pose proof (hamming_nonneg w c).
    destruct (popcount_pos_bit CODEWORD_BITS (Z.lxor w c)) as [i [Hi Hbit]];
      [unfold hamming in *; lia |].
    apply (first_some_found _ _ i); [apply in_seq; lia |].
    apply (IH _ c); try assumption.
    + now apply flip_word.
    + rewrite hamming_flip_closer by assumption. lia.
Qed.

(** ** Codewords *)

Section Systematic.

Variable parity : Z -> Z.
Hypothesis parity_range : forall d, is_data d -> 0 <= parity d < 2 ^ 8.

Lemma codeword_data (d : Z) :
  is_data d -> Z.shiftr (codeword parity d) 8 = d.
Proof.
  intros Hd. unfold codeword.
  rewrite Z.shiftr_lor, Z.shiftr_shiftl_l, Z.sub_diag, Z.shiftl_0_r by lia.
  rewrite (Z.shiftr_div_pow2 (parity d)) by lia.
  rewrite Z.div_small by (apply parity_range; exact Hd).
  apply Z.lor_0_r.
Qed.

Lemma codeword_check (d : Z) :
  is_data d -> Z.land (codeword parity d) 255 = parity d.
Proof.
  intros Hd. unfold codeword. change 255 with (Z.ones 8).
  rewrite Z.land_lor_distr_l, !Z.land_ones by lia.
  rewrite Z.shiftl_mul_pow2, Z.mod_mul by lia.
  rewrite Z.mod_small by (apply parity_range; exact Hd).
  apply Z.lor_0_l.
Qed.

Lemma codeword_is_codeword (d : Z) :
  is_data d -> is_codeword parity (codeword parity d) = true.
Proof.
  intros Hd. unfold is_codeword.
  rewrite codeword_data, codeword_check by exact Hd. apply Z.eqb_refl.
Qed.

Lemma codeword_word (d : Z) : is_data d -> is_word (codeword parity d).
Proof.
  intros Hd. apply word_of_bits; [lia |]. intros i Hi.
  unfold codeword. rewrite Z.lor_spec, Z.shiftl_spec by lia.
  rewrite (word_high_bits 23 d) by (exact Hd || lia).
  rewrite (word_high_bits 8 (parity d)) by (apply parity_range; exact Hd) || lia.
  reflexivity.
Qed.

End Systematic.

Lemma split_at_8 (c : Z) :
  Z.lor (Z.shiftl (Z.shiftr c 8) 8) (Z.land c 255) = c.
Proof.
  apply Z.bits_inj'. intros i Hi. change 255 with (Z.ones 8).
  rewrite Z.lor_spec, Z.land_spec.
  destruct (Z.lt_ge_cases i 8) as [Hlt | Hge].
  - rewrite Z.shiftl_spec_low, Z.ones_spec_low by lia.
    now rewrite andb_true_r.
  - rewrite Z.shiftl_spec_high, Z.shiftr_spec, Z.ones_spec_high by lia.
    rewrite andb_false_r, orb_false_r. f_equal. lia.
Qed.

Lemma is_codeword_codeword (parity : Z -> Z) (c : Z) :
  is_codeword parity c = true -> codeword parity (Z.shiftr c 8) = c.
Proof.
  unfold is_codeword, codeword. intros H. apply Z.eqb_eq in H.
  rewrite H. apply split_at_8.
Qed.

Lemma word_data (c : Z) : is_word c -> is_data (Z.shiftr c 8).
Proof.
  unfold is_word, is_data. intros Hc. rewrite Z.shiftr_div_pow2 by lia.
  split; [apply Z.div_pos; lia |].
  apply Z.div_lt_upper_bound; lia.
Qed.

(** ** Decoding within the correction capacity *)

(** Bounded-distance decoding. Take a code of 31-bit codewords, 23 data
    bits above 8 check bits, any two codewords of which differ in more than
    [2 t] bits,
    and the decoder that looks for a codeword within [t] bits. A received
    word with at most [t] bit errors decodes to the original 23 data bits,
    with success; whatever the decoder returns with success is the data of a
    codeword within [t] bits of the received word; and it reports the
    failure only when no codeword is within [t] bits. (A word with more than
    [t] errors that is within [t] bits of another codeword is decoded to
    that one.) *)
Theorem decode_within_capacity (parity : Z -> Z) (t : nat) :
  (forall d, is_data d -> 0 <= parity d < 2 ^ 8) ->
  (forall d1 d2, is_data d1 -> is_data d2 -> d1 <> d2 ->
                 2 * Z.of_nat t
                 < hamming (codeword parity d1) (codeword parity d2)) ->
  forall w, is_word w ->
    (forall d, is_data d -> hamming (codeword parity d) w <= Z.of_nat t ->
               bch_decode (systematic_code parity t) w = Some d)
    /\ (forall d, bch_decode (systematic_code parity t) w = Some d ->
                  is_data d /\ hamming (codeword parity d) w <= Z.of_nat t)
    /\ (bch_decode (systematic_code parity t) w = None ->
        forall d, is_data d -> Z.of_nat t < hamming (codeword parity d) w).
Proof.
  intros Hparity Hdist w Hw. cbn [bch_decode systematic_code]. unfold decode.
  assert (Hsound : forall c, nearest (is_codeword parity) t w = Some c ->
            is_data (Z.shiftr c 8)
            /\ codeword parity (Z.shiftr c 8) = c
            /\ hamming c w <= Z.of_nat t).
  { intros c Hc. apply nearest_sound in Hc as [Hgood [Hd Hword]].
    split; [apply word_data; auto |]. split.
    - now apply is_codeword_codeword.
    - now rewrite hamming_sym. }
  split; [| split].
  - intros d Hd Hnear.
    destruct (nearest (is_codeword parity) t w) as [c |] eqn:Hc.
    + destruct (Hsound c eq_refl) as [Hdc [Hcw Hdw]]. cbn [option_map].
      f_equal. destruct (Z.eq_dec (Z.shiftr c 8) d) as [-> | Hne]; [easy |].
      pose proof (Hdist _ _ Hdc Hd Hne) as Hfar. rewrite Hcw in Hfar.
      pose proof (hamming_triangle c w (codeword parity d)) as Htri.
      rewrite (hamming_sym w) in Htri. lia.
    + exfalso. revert Hc.
      apply (nearest_complete _ t w (codeword parity d)); auto.
      * now apply codeword_word.
      * now apply codeword_is_codeword.
      * now rewrite hamming_sym.
  - intros d Hdec.
    destruct (nearest (is_codeword parity) t w) as [c |] eqn:Hc;
      [| discriminate].
    injection Hdec as <-.
    destruct (Hsound c eq_refl) as [Hdc [Hcw Hdw]]. now rewrite Hcw.
  - intros Hnone d Hd.
    destruct (nearest (is_codeword parity) t w) as [c |] eqn:Hc;
      [discriminate |].
    destruct (Z.lt_ge_cases (Z.of_nat t) (hamming (codeword parity d) w))
      as [Hlt | Hge]; [exact Hlt |].
    exfalso. revert Hc.
    apply (nearest_complete _ t w (codeword parity d)); auto.
    + now apply codeword_word.
    + now apply codeword_is_codeword.
    + rewrite hamming_sym. lia.
Qed.

(** ** A code of distance 3 *)

Local Ltac lxor_bits :=
  apply Z.bits_inj'; intros ? ?; rewrite ?Z.lxor_spec;
  repeat match goal with
    | |- context [Z.testbit ?a ?n] => destruct (Z.testbit a n)
    end;
  reflexivity.

Lemma land_lxor_255 (x y : Z) :
  Z.land (Z.lxor x y) 255 = Z.lxor (Z.land x 255) (Z.land y 255).
Proof.
  apply Z.bits_inj'. intros i Hi.
  rewrite !Z.lxor_spec, !Z.land_spec, Z.lxor_spec.
  now destruct (Z.testbit x i), (Z.testbit y i), (Z.testbit 255 i).
Qed.

Lemma combine_range (columns : list Z) :
  Forall (fun h => 0 <= h < 2 ^ 8) columns ->
  forall idx : list nat,
    Forall (fun ih => 0 <= snd ih < 2 ^ 8) (combine idx columns).
Proof.
  induction 1 as [| h l Hh _ IH]; intros [| i idx]; cbn [combine];
    constructor; auto.
Qed.

Section Columns.

Variable columns : list Z.
Hypothesis columns_range : Forall (fun h => 0 <= h < 2 ^ 8) columns.

Lemma column_sum_range (d : Z) (l : list (nat * Z)) :
  Forall (fun ih => 0 <= snd ih < 2 ^ 8) l -> 0 <= column_sum d l < 2 ^ 8.
Proof.
  induction 1 as [| [i h] l Hh _ IH]; cbn [column_sum]; [lia |].
  destruct (Z.testbit d _); [| exact IH].
  apply (lxor_range 8); [lia | exact Hh | exact IH].
Qed.

Lemma column_sum_lxor (x y : Z) (l : list (nat * Z)) :
  column_sum (Z.lxor x y) l = Z.lxor (column_sum x l) (column_sum y l).
Proof.
  induction l as [| [i h] l IH]; cbn [column_sum]; [reflexivity |].
  rewrite Z.lxor_spec, IH.
  set (sx := column_sum x l). set (sy := column_sum y l).
  destruct (Z.testbit x _), (Z.testbit y _); cbn [xorb];
    try reflexivity; lxor_bits.
Qed.

Lemma parity_of_columns_range (d : Z) :
  0 <= parity_of_columns columns d < 2 ^ 8.
Proof. apply column_sum_range, combine_range, columns_range. Qed.

Lemma parity_of_columns_lxor (x y : Z) :
  parity_of_columns columns (Z.lxor x y)
  = Z.lxor (parity_of_columns columns x) (parity_of_columns columns y).
Proof. apply column_sum_lxor. Qed.

(** When the search finds no codeword other than 0 within [2 t] bits of 0,
    any two codewords differ in more than [2 t] bits. *)
Lemma linear_code_distance (t2 : nat) (d1 d2 : Z) :
  nearest (nonzero_codeword (parity_of_columns columns)) t2 0 = None ->
  is_data d1 -> is_data d2 -> d1 <> d2 ->
  Z.of_nat t2 < hamming (codeword (parity_of_columns columns) d1)
                  (codeword (parity_of_columns columns) d2).
Proof.
  intros Hnone Hd1 Hd2 Hne.
  set (parity := parity_of_columns columns).
  assert (Hrange : forall d, is_data d -> 0 <= parity d < 2 ^ 8)
    by (intros d _; apply parity_of_columns_range).
  set (e := Z.lxor (codeword parity d1) (codeword parity d2)).
  assert (He : is_word e).
  { apply lxor_range; [lia | |]; now apply codeword_word. }
  assert (Hdata : Z.shiftr e 8 = Z.lxor d1 d2).
  { unfold e. rewrite Z.shiftr_lxor. now rewrite !codeword_data. }
  assert (Hgood : nonzero_codeword parity e = true).
  { unfold nonzero_codeword, is_codeword. rewrite Hdata.
    unfold e at 1. rewrite land_lxor_255, !codeword_check by assumption.
    unfold parity at 1. rewrite parity_of_columns_lxor. fold parity.
    rewrite Z.eqb_refl. cbn [andb]. apply negb_true_iff. apply Z.eqb_neq.
    intros H. apply Hne. now apply Z.lxor_eq_0_iff. }
  destruct (Z.lt_ge_cases (Z.of_nat t2)
              (hamming (codeword parity d1) (codeword parity d2)))
    as [Hlt | Hge]; [exact Hlt |].
  exfalso. revert Hnone. fold parity.
  apply (nearest_complete _ t2 0 e); try assumption.
  all: first [ unfold is_word; lia
             | unfold hamming in *; now rewrite Z.lxor_0_l ].
Qed.

End Columns.

Lemma distance_3_columns_range :
  Forall (fun h => 0 <= h < 2 ^ 8) distance_3_columns.
Proof. repeat constructor; lia. Qed.

Lemma distance_3 (d1 d2 : Z) :
  is_data d1 -> is_data d2 -> d1 <> d2 ->
  2 * Z.of_nat 1
  < hamming (codeword (parity_of_columns distance_3_columns) d1)
      (codeword (parity_of_columns distance_3_columns) d2).
Proof.
  apply (linear_code_distance distance_3_columns distance_3_columns_range 2).
  vm_compute. reflexivity.
Qed.

Lemma decode_within_capacity_witness :
  bch_decode (systematic_code (parity_of_columns distance_3_columns) 1)
    (Z.lxor (codeword (parity_of_columns distance_3_columns) 12345) 1024)
  = Some 12345.
Proof.
  refine (proj1 (decode_within_capacity
                   (parity_of_columns distance_3_columns) 1
                   (fun d _ => parity_of_columns_range distance_3_columns
                                 distance_3_columns_range d)
                   distance_3 _ _) 12345 _ _).
  - vm_compute. split; [discriminate | reflexivity].
  - vm_compute. split; [discriminate | reflexivity].
  - vm_compute. discriminate.
Defined.

(** With two bit errors that decoder returns other data, and no failure. *)
Example decode_beyond_capacity :
  hamming (codeword (parity_of_columns distance_3_columns) 12345)
    (Z.lxor (codeword (parity_of_columns distance_3_columns) 12345) 1025)
  = 2
  /\ bch_decode (systematic_code (parity_of_columns distance_3_columns) 1)
       (Z.lxor (codeword (parity_of_columns distance_3_columns) 12345) 1025)
     = Some 12341.
Proof. split; vm_compute; reflexivity. Qed.

(** ** The sphere-packing bound *)

Lemma bounded_search (Q : Z -> Prop) (n : Z) :
  (forall x, {Q x} + {~ Q x}) -> 0 <= n ->
  (exists x, 0 <= x < n /\ Q x) \/ (forall x, 0 <= x < n -> ~ Q x).
Proof.
  intros Qdec Hn. pattern n. apply natlike_ind; [| | exact Hn].
  - right. intros x Hx. lia.
  - intros m Hm [[x [Hx HQ]] | Hnone].
    + left. exists x. split; [lia | exact HQ].
    + destruct (Qdec m) as [HQ | HnQ].
      * left. exists m. split; [lia | exact HQ].
      * right. intros x Hx. destruct (Z.eq_dec x m) as [-> | Hne];
          [exact HnQ | apply Hnone; lia].
Qed.

(** A function from [a] numbers into fewer takes some value twice. *)
Lemma pigeonhole (b : Z) :
  0 <= b ->
  forall (a : Z) (f : Z -> Z),
    b < a -> (forall x, 0 <= x < a -> 0 <= f x < b) ->
    exists x y, 0 <= x < y /\ y < a /\ f x = f y.
Proof.
  intros Hb. pattern b. apply natlike_ind; [| | exact Hb]; clear b Hb.
  - intros a f Ha Hf. specialize (Hf 0). lia.
  - intros b Hb IH a f Ha Hf.
    destruct (bounded_search (fun x => f x = f (a - 1)) (a - 1)
                (fun x => Z.eq_dec (f x) (f (a - 1))) ltac:(lia))
      as [[x [Hx Heq]] | Hnone].
    + exists x, (a - 1). split; [lia | split; [lia | exact Heq]].
    + set (g := fun x => if Z.eq_dec (f x) b then f (a - 1) else f x).
      assert (Hg : forall x, 0 <= x < a - 1 -> 0 <= g x < b).
      { intros x Hx. unfold g.
        pose proof (Hf x ltac:(lia)). pose proof (Hf (a - 1) ltac:(lia)).
        pose proof (Hnone x Hx).
        destruct (Z.eq_dec (f x) b); lia. }
      destruct (IH (a - 1) g ltac:(lia) Hg) as [x [y [Hxy [Hy Heq]]]].
      exists x, y. split; [lia | split; [lia |]]. unfold g in Heq.
      pose proof (Hnone x ltac:(lia)). pose proof (Hnone y ltac:(lia)).
      destruct (Z.eq_dec (f x) b), (Z.eq_dec (f y) b); congruence.
Qed.

Lemma nodupb_NoDup (l : list Z) : nodupb l = true -> NoDup l.
Proof.
  induction l as [| x l IH]; cbn [nodupb]; intros H; constructor;
    apply andb_true_iff in H as [Hx Hl].
  - intros Hin. apply negb_true_iff in Hx.
    assert (Hex : existsb (Z.eqb x) l = true)
      by (apply existsb_exists; exists x; split; [exact Hin | apply Z.eqb_refl]).
    congruence.
  - now apply IH.
Qed.

Lemma error_patterns_2_length : List.length error_patterns_2 = 497%nat.
Proof. reflexivity. Qed.

Lemma error_patterns_2_NoDup : NoDup error_patterns_2.
Proof. apply nodupb_NoDup. vm_compute. reflexivity. Qed.

Lemma error_patterns_2_weight (e : Z) :
  In e error_patterns_2 -> is_word e /\ popcount CODEWORD_BITS e <= 2.
Proof.
  assert (H : forallb (fun e => (0 <=? e) && (e <? 2 ^ 31)
                                && (popcount CODEWORD_BITS e <=? 2))
                error_patterns_2 = true) by (vm_compute; reflexivity).
  rewrite forallb_forall in H. intros Hin. specialize (H e Hin).
  apply andb_true_iff in H as [H Hp]. apply andb_true_iff in H as [H0 H1].
  unfold is_word. lia.
Qed.

(** No decoder of 31-bit words carrying 23 data bits corrects every pattern
    of up to 2 bit errors: the 497 words within 2 bits of each of the 2^23
    codewords would be 2^23 * 497 distinct 31-bit words. *)
Lemma no_code_corrects_2 (code : bch_code) :
  bch_well_formed code -> bch_corrects 2 code -> False.
Proof.
  intros Hwf Hcorr.
  set (pattern := fun x => nth (Z.to_nat (x mod 497)) error_patterns_2 0).
  set (f := fun x => Z.lxor (bch_encode code (x / 497)) (pattern x)).
  assert (Hpat : forall x, In (pattern x) error_patterns_2).
  { intros x. apply nth_In. rewrite error_patterns_2_length.
    pose proof (Z.mod_pos_bound x 497). lia. }
  assert (Hdata : forall x, 0 <= x < 2 ^ 23 * 497 -> is_data (x / 497)).
  { intros x Hx. split; [apply Z.div_pos; lia |].
    apply Z.div_lt_upper_bound; lia. }
  assert (Hdec : forall x, 0 <= x < 2 ^ 23 * 497 ->
                   is_word (f x) /\ bch_decode code (f x) = Some (x / 497)).
  { intros x Hx. destruct (error_patterns_2_weight _ (Hpat x)) as [Hw Hp].
    assert (Hfw : is_word (f x))
      by (apply (lxor_range 31); [lia | apply Hwf; auto | exact Hw]).
    split; [exact Hfw |].
    apply Hcorr; auto. unfold f. now rewrite hamming_lxor. }
  destruct (pigeonhole (2 ^ 31) ltac:(lia) (2 ^ 23 * 497) f ltac:(lia)
              (fun x Hx => proj1 (Hdec x Hx)))
    as [x [y [Hxy [Hy Heq]]]].
  destruct (Hdec x ltac:(lia)) as [_ Hx]. destruct (Hdec y ltac:(lia)) as [_ Hy'].
  rewrite Heq, Hy' in Hx. injection Hx as Hq.
  assert (Hpe : pattern x = pattern y).
  { unfold f in Heq. rewrite Hq in Heq.
    apply (f_equal (Z.lxor (bch_encode code (x / 497)))) in Heq.
    now rewrite <- !Z.lxor_assoc, Z.lxor_nilpotent, !Z.lxor_0_l in Heq. }
  unfold pattern in Hpe.
  apply (proj1 (NoDup_nth error_patterns_2 0) error_patterns_2_NoDup) in Hpe;
    try (rewrite error_patterns_2_length;
         pose proof (Z.mod_pos_bound x 497);
         pose proof (Z.mod_pos_bound y 497); lia).
  pose proof (Z.mod_pos_bound x 497). pose proof (Z.mod_pos_bound y 497).
  pose proof (Z.div_mod x 497). pose proof (Z.div_mod y 497). lia.
Qed.

(** No code of 31-bit codewords for 23 data bits has a decoder that corrects
    every pattern of up to 2 bit errors and reports every other word as a
    failure. *)
Lemma bch_31_23_claim_fails :
  ~ (exists code : bch_code, corrects_2_and_flags_more code).
Proof.
  intros [code [Hwf [Hcorr _]]]. exact (no_code_corrects_2 code Hwf Hcorr).
Qed.

End BchFacts.

(* ################################################################# *)
(** * Properties of the FLEX decoder *)

Module FlexFacts.
Import Bch Flex.

(** ** Resumption across calls *)




(** ** Tone messages *)

Lemma message_call_tone P baud h words :
  tone_call (message_call P baud h words).
Proof.
  unfold tone_call, message_call.
  destruct (hdr_type h) eqn:Ht; cbn; rewrite ?Ht; intros H;
    first [discriminate H | now split].
Qed.

Lemma block_on_word_tone P baud blk w :
  Forall tone_call (snd (block_on_word P baud blk w)).
Proof.
  unfold block_on_word.
  destruct (assemble P blk w) as [h words].
  destruct (message_complete h words); cbn [snd];
    auto using message_call_tone.
Qed.

Lemma block_on_bit_tone P code baud st bit :
  Forall tone_call (snd st) ->
  Forall tone_call (snd (block_on_bit P code baud st bit)).
Proof.
  destruct st as [blk calls]. cbn [snd]. intros Hcalls.
  unfold block_on_bit.
  destruct (cw_bits blk + 1 <? 31); [exact Hcalls |].
  destruct (bch_decode code _) as [d |]; [| exact Hcalls].
  pose proof (block_on_word_tone P baud
                (mk_block 0 0 (header blk) (body blk)) d) as Hw.
  destruct (block_on_word P baud _ d) as [blk' calls']. cbn [snd] in *.
  apply Forall_app. now split.
Qed.

Lemma block_on_symbol_tone P code baud blk symbol :
  Forall tone_call (snd (block_on_symbol P code baud blk symbol)).
Proof.
  unfold block_on_symbol.
  assert (Hgen : forall st, Forall tone_call (snd st) ->
            Forall tone_call
              (snd (fold_left (block_on_bit P code baud) symbol st))).
  { induction symbol as [| bit symbol IH]; intros st Hst; [exact Hst |].
    cbn [fold_left]. apply IH. now apply block_on_bit_tone. }
  apply Hgen. constructor.
Qed.

Lemma pager_flex_on_sample_tone P f sample f' calls :
  pager_flex_on_sample P f sample = Some (f', calls) ->
  Forall tone_call calls.
Proof.
  unfold pager_flex_on_sample.
  destruct (state f).
  - destruct (sync_state _); intros [= <- <-]; constructor.
  - destruct (skip_count f <? skip f); [intros [= <- <-]; constructor |].
    destruct (sync_2_state _); try (intros [= <- <-]; constructor).
    destruct (enter_block P _); cbn [option_map];
      [intros [= <- <-]; constructor | discriminate].
  - destruct (skip_count f <? skip f); [intros [= <- <-]; constructor |].
    unfold block_update.
    pose proof (block_on_symbol_tone P (bch (set_skip_count 0 f))
                  (baud_rate (set_skip_count 0 f))
                  (block (set_skip_count 0 f))
                  (pager_flex_slice (modulation (set_skip_count 0 f))
                     (slice_range_high (set_skip_count 0 f))
                     (slice_range_low (set_skip_count 0 f)) sample)) as H.
    destruct (block_on_symbol P _ _ _ _) as [blk calls'].
    intros [= <- <-]. exact H.
Qed.

Lemma on_pcm_loop_tone P samples :
  forall f, Forall tone_call (snd (on_pcm_loop P f samples)).
Proof.
  induction samples as [| x samples IH]; intros f; [constructor |].
  cbn [on_pcm_loop].
  destruct (pager_flex_on_sample P f x) as [[f1 calls1] |] eqn:Hx;
    [| constructor].
  apply pager_flex_on_sample_tone in Hx.
  specialize (IH f1). destruct (on_pcm_loop P f1 samples) as [r calls2].
  cbn [snd] in *. apply Forall_app. now split.
Qed.

(** C7. The data word that completes a message of type TONE makes the
    decoder invoke the callback once, with a null [message_bytes] and a
    [message_len] of 0; and every invocation with message type TONE that
    [pager_flex_on_pcm] makes has a null [message_bytes] and a [message_len]
    of 0. *)
Theorem tone_message_callback (P : flex_params) :
  (forall baud blk w,
      let h := fst (assemble P blk w) in
      let words := snd (assemble P blk w) in
      message_complete h words = true ->
      hdr_type h = PAGER_FLEX_TONE ->
      snd (block_on_word P baud blk w)
      = [mk_call baud (hdr_phase h) (hdr_cap_code h) PAGER_FLEX_TONE NULL 0])
  /\ (forall f samples call,
         In call (snd (pager_flex_on_pcm P (Ptr f) (Ptr samples))) ->
         cb_message_type call = PAGER_FLEX_TONE ->
         cb_message_bytes call = NULL /\ cb_message_len call = 0).
Proof.
  split.
  - intros baud blk w h words Hdone Ht. subst h words.
    unfold block_on_word. destruct (assemble P blk w) as [h words].
    cbn [fst snd] in *. rewrite Hdone. cbn [snd].
    unfold message_call. now rewrite Ht.
  - intros f samples call Hin.
    pose proof (on_pcm_loop_tone P samples f) as Hall.
    unfold pager_flex_on_pcm in Hin.
    destruct (on_pcm_loop P f samples) as [r calls]. cbn [snd] in *.
    rewrite Forall_forall in Hall. exact (Hall call Hin).
Qed.

Lemma tone_message_callback_witness :
  snd (block_on_word example_params 1600 pager_flex_block_init 0x1233)
  = [mk_call 1600 "A" 0x123 PAGER_FLEX_TONE NULL 0]
  /\ snd (pager_flex_on_pcm example_params (Ptr example_block_decoder)
            (Ptr (samples_of_word 31
                    (codeword (parity_of_columns distance_3_columns)
                       0x1233))))
     = [mk_call 1600 "A" 0x123 PAGER_FLEX_TONE NULL 0]
  /\ cb_message_bytes (mk_call 1600 "A" 0x123 PAGER_FLEX_TONE NULL 0) = NULL
  /\ cb_message_len (mk_call 1600 "A" 0x123 PAGER_FLEX_TONE NULL 0) = 0.
Proof.
  destruct (tone_message_callback example_params) as [Hword Hcalls].
  split; [| split].
  - apply (Hword 1600 pager_flex_block_init 0x1233); reflexivity.
  - vm_compute. reflexivity.
  - apply (Hcalls example_block_decoder
             (samples_of_word 31
                (codeword (parity_of_columns distance_3_columns) 0x1233))).
    + vm_compute. left. reflexivity.
    + reflexivity.
Defined.

(** ** The slicing thresholds *)

Lemma enter_block_inv (P : flex_params) (f f' : pager_flex) :
  enter_block P f = Some f' ->
  state f' = PAGER_FLEX_STATE_BLOCK /\ sync_2 f' = sync_2 f
  /\ range_avg_count_high (sync_2 f) <> 0
  /\ range_avg_count_low (sync_2 f) <> 0
  /\ slice_range_high f'
     = s16 (u32 (range_avg_sum_high (sync_2 f))
            / range_avg_count_high (sync_2 f))
  /\ slice_range_low f'
     = s16 (u32 (range_avg_sum_low (sync_2 f))
            / range_avg_count_low (sync_2 f)).
Proof.
  unfold enter_block, range_avg_high, range_avg_low, div_int32_unsigned.
  destruct (Z.eqb_spec (range_avg_count_high (sync_2 f)) 0) as [| Hh];
    [discriminate |].
  destruct (Z.eqb_spec (range_avg_count_low (sync_2 f)) 0) as [| Hl];
    [discriminate |].
  cbn [option_map]. intros [= <-]. cbn. repeat split; assumption.
Qed.

Lemma enter_block_none (P : flex_params) (f : pager_flex) :
  enter_block P f = None ->
  range_avg_count_high (sync_2 f) = 0 \/ range_avg_count_low (sync_2 f) = 0.
Proof.
  unfold enter_block, range_avg_high, range_avg_low, div_int32_unsigned.
  destruct (Z.eqb_spec (range_avg_count_high (sync_2 f)) 0) as [| Hh];
    [now left |].
  destruct (Z.eqb_spec (range_avg_count_low (sync_2 f)) 0) as [| Hl];
    [now right | discriminate].
Qed.

(** C5. One sample through the decoder changes [slice_range_high] and
    [slice_range_low] only when it takes the decoder from Sync 2 to the
    blocks, and they are then [range_avg_sum_high / range_avg_count_high]
    and [range_avg_sum_low / range_avg_count_low] of the Sync 2 tracker, as
    C computes them for an [int32_t] sum and an [unsigned] count, stored in
    an [int16_t]; after every other step both are what they were. The only
    step without a result is the one that would take the decoder from Sync 2
    to the blocks with a count of 0, where the division has no result and
    nothing is stored. *)
Theorem slice_range_only_after_sync_2 (P : flex_params) (f : pager_flex)
  (sample : Z) :
  match pager_flex_on_sample P f sample with
  | Some (f', _) =>
      (sync_2_to_block f f' ->
       range_avg_count_high (sync_2 f') <> 0
       /\ range_avg_count_low (sync_2 f') <> 0
       /\ slice_range_high f'
          = s16 (u32 (range_avg_sum_high (sync_2 f'))
                 / range_avg_count_high (sync_2 f'))
       /\ slice_range_low f'
          = s16 (u32 (range_avg_sum_low (sync_2 f'))
                 / range_avg_count_low (sync_2 f')))
      /\ (~ sync_2_to_block f f' ->
          slice_range_high f' = slice_range_high f
          /\ slice_range_low f' = slice_range_low f)
  | None =>
      let s := pager_flex_sync_2_update P (sync_2 f) sample in
      state f = PAGER_FLEX_STATE_SYNC_2
      /\ sync_2_state s = PAGER_FLEX_SYNC_2_STATE_SYNCED
      /\ (range_avg_count_high s = 0 \/ range_avg_count_low s = 0)
  end.
Proof.
  unfold sync_2_to_block, pager_flex_on_sample.
  destruct (state f) eqn:Hst.
  - destruct (sync_state _); cbn; split;
      first [ intros [H _]; discriminate H | intros _; now split ].
  - destruct (skip_count f <? skip f).
    + cbn. rewrite Hst. split;
        first [ intros [_ H]; discriminate H | intros _; now split ].
    + cbn [sync_2 set_skip_count].
      destruct (sync_2_state (pager_flex_sync_2_update P (sync_2 f) sample))
        eqn:Hs2;
        try (cbn; rewrite ?Hst; split;
             first [ intros [_ H]; discriminate H | intros _; now split ]).
      destruct (enter_block P _) as [f' |] eqn:Hb; cbn [option_map].
      * apply enter_block_inv in Hb
          as (Hstate & Hsync & Hh & Hl & Hhigh & Hlow).
        cbn [sync_2 set_sync_2] in *. rewrite Hsync. split.
        -- intros _. auto.
        -- intros H. elim H. now split.
      * apply enter_block_none in Hb. cbn [sync_2 set_sync_2] in Hb.
        cbv zeta. auto.
  - destruct (skip_count f <? skip f).
    + cbn. split; first [ intros [H _]; discriminate H | intros _; now split ].
    + unfold block_update.
      destruct (block_on_symbol P _ _ _ _) as [blk calls].
      destruct (frame_symbols P <=? _); cbn; split;
        first [ intros [H _]; discriminate H | intros _; now split ].
Qed.

Lemma slice_range_only_after_sync_2_witness :
  exists f',
    option_map fst
      (pager_flex_on_sample example_params example_sync_2_decoder 1000)
    = Some f'
    /\ sync_2_to_block example_sync_2_decoder f'
    /\ slice_range_high f' = 4000 /\ slice_range_low f' = -3001.
Proof.
  pose proof (slice_range_only_after_sync_2 example_params
                example_sync_2_decoder 1000) as H.
  assert (Hc : option_map (fun r => (state (fst r), sync_2 (fst r)))
                 (pager_flex_on_sample example_params example_sync_2_decoder
                    1000)
               = Some (PAGER_FLEX_STATE_BLOCK,
                       mk_sync_2 PAGER_FLEX_SYNC_2_STATE_SYNCED 0 1 0 64000
                         (-48001) 16 16))
    by (vm_compute; reflexivity).
  destruct (pager_flex_on_sample example_params example_sync_2_decoder 1000)
    as [[f' calls] |]; [| discriminate Hc].
  cbn [option_map fst] in Hc. injection Hc as Hstate Hsync.
  exists f'. split; [reflexivity |].
  assert (Ht : sync_2_to_block example_sync_2_decoder f')
    by (split; [reflexivity | exact Hstate]).
  split; [exact Ht |].
  destruct (proj1 H Ht) as (_ & _ & Hh & Hl).
  rewrite Hh, Hl, Hsync. split; reflexivity.
Defined.

(** The stored low threshold is not the arithmetic mean of the low samples:
    the sum -9000 over 3 samples gives 18845. *)
Example range_avg_low_unsigned :
  range_avg_low (mk_sync_2 PAGER_FLEX_SYNC_2_STATE_SYNCED 0 0 0 0 (-9000) 3 3)
  = Some 18845.
Proof. reflexivity. Qed.

(** ** The history of sync words *)

Lemma sync_words_push_length (w : Z) (h : list Z) :
  (List.length h <= NR_SYNC_WORDS)%nat ->
  (List.length (sync_words_push w h) <= NR_SYNC_WORDS)%nat.
Proof.
  unfold sync_words_push, NR_SYNC_WORDS. intros Hh.
  destruct (Nat.ltb_spec (List.length h) 10) as [Hlt | Hge];
    rewrite length_app; cbn [List.length].
  - lia.
  - destruct h; cbn [tl List.length] in *; lia.
Qed.

Lemma sync_words_push_full (w : Z) (h : list Z) :
  List.length h = NR_SYNC_WORDS ->
  sync_words_push w h = tl h ++ [w]
  /\ List.length (sync_words_push w h) = NR_SYNC_WORDS.
Proof.
  unfold sync_words_push, NR_SYNC_WORDS. intros Hh. rewrite Hh. cbn.
  split; [reflexivity |].
  rewrite length_app. destruct h; cbn [tl List.length] in *; lia.
Qed.

Lemma sync_reset_bounded s : history_bounded s -> history_bounded (sync_reset s).
Proof. exact (fun H => H). Qed.

Local Ltac push_bounded :=
  repeat match goal with
    | |- context [if ?cond then _ else _] => destruct cond
    | |- context [match find_coding ?P ?w with _ => _ end] =>
        destruct (find_coding P w)
    end;
  unfold history_bounded in *; cbn;
  try apply sync_words_push_length; assumption.

Lemma sync_on_bit_bounded P s bit :
  history_bounded s -> history_bounded (sync_on_bit P s bit).
Proof.
  intros Hs. unfold sync_on_bit. destruct (sync_state s); push_bounded.
Qed.

Lemma pager_flex_sync_update_bounded P s sample :
  history_bounded s -> history_bounded (pager_flex_sync_update P s sample).
Proof.
  intros Hs. unfold pager_flex_sync_update.
  destruct (_ <? _); [exact Hs |].
  apply sync_on_bit_bounded. exact Hs.
Qed.

Lemma pager_flex_on_sample_bounded P f sample f' calls :
  history_bounded (sync f) ->
  pager_flex_on_sample P f sample = Some (f', calls) ->
  history_bounded (sync f').
Proof.
  intros Hf. unfold pager_flex_on_sample.
  destruct (state f).
  - pose proof (pager_flex_sync_update_bounded P (sync f) sample Hf) as Hs.
    destruct (sync_state _); intros [= <- _]; cbn;
      first [exact Hs | apply Nat.le_0_l].
  - destruct (skip_count f <? skip f); [intros [= <- _]; exact Hf |].
    destruct (sync_2_state _); try (intros [= <- _]; exact Hf).
    destruct (enter_block P _) as [fb |] eqn:Hb; cbn [option_map];
      [| discriminate].
    intros [= <- _]. unfold enter_block in Hb.
    destruct (range_avg_high _); [| discriminate].
    destruct (range_avg_low _); [| discriminate].
    injection Hb as <-. exact Hf.
  - destruct (skip_count f <? skip f); [intros [= <- _]; exact Hf |].
    unfold block_update.
    destruct (block_on_symbol P _ _ _ _) as [blk calls'].
    destruct (frame_symbols P <=? _); intros [= <- _]; cbn;
      first [exact Hf | apply Nat.le_0_l].
Qed.

Lemma reachable_bounded P f : reachable P f -> history_bounded (sync f).
Proof.
  induction 1 as [code freq cb f Hnew | f sample f' calls _ IH Hstep].
  - unfold pager_flex_new in Hnew. destruct cb; [discriminate |].
    injection Hnew as <-. apply Nat.le_0_l.
  - exact (pager_flex_on_sample_bounded P f sample f' calls IH Hstep).
Qed.

Lemma reachable_on_pcm_loop P samples :
  forall f f',
    reachable P f -> fst (on_pcm_loop P f samples) = Some f' ->
    reachable P f'.
Proof.
  induction samples as [| x samples IH]; intros f f' Hf;
    cbn [on_pcm_loop].
  - intros [= <-]. exact Hf.
  - destruct (pager_flex_on_sample P f x) as [[f1 calls1] |] eqn:Hx;
      [| discriminate].
    pose proof (reachable_sample P f x f1 calls1 Hf Hx) as H1.
    specialize (IH f1 f' H1).
    destruct (on_pcm_loop P f1 samples) as [r calls2]. exact IH.
Qed.

(** C6. In every decoder reached from a new one, the history of sync words of
    the Sync 1 tracker has at most 10 entries; a word appended to a history
    of 10 takes the place of the oldest one, the others moving up, and the
    history has 10 entries still. *)
Theorem sync_words_ring (P : flex_params) (f : pager_flex) :
  reachable P f ->
  (List.length (sync_words (sync f)) <= 10)%nat
  /\ (forall w,
         List.length (sync_words (sync f)) = 10%nat ->
         sync_words_push w (sync_words (sync f))
         = tl (sync_words (sync f)) ++ [w]
         /\ List.length (sync_words_push w (sync_words (sync f))) = 10%nat).
Proof.
  intros Hf. split.
  - exact (reachable_bounded P f Hf).
  - intros w Hfull. now apply sync_words_push_full.
Qed.

Lemma sync_words_ring_witness :
  exists f,
    fst (on_pcm_loop example_params example_new_decoder failed_attempts)
    = Some f
    /\ reachable example_params f
    /\ sync_words (sync f)
       = [0x870CA6C6; 0x870CA6C6; 0x1234; 0x870CA6C6; 0x870CA6C6; 0x1234;
          0x870CA6C6; 0x870CA6C6; 0x1234; 0x870CA6C6]
    /\ sync_words_push 7 (sync_words (sync f))
       = [0x870CA6C6; 0x1234; 0x870CA6C6; 0x870CA6C6; 0x1234;
          0x870CA6C6; 0x870CA6C6; 0x1234; 0x870CA6C6; 7].
Proof.
  assert (Hw : option_map (fun f => sync_words (sync f))
                 (fst (on_pcm_loop example_params example_new_decoder
                         failed_attempts))
               = Some [0x870CA6C6; 0x870CA6C6; 0x1234; 0x870CA6C6;
                       0x870CA6C6; 0x1234; 0x870CA6C6; 0x870CA6C6; 0x1234;
                       0x870CA6C6])
    by (vm_compute; reflexivity).
  destruct (fst (on_pcm_loop example_params example_new_decoder
                   failed_attempts)) as [f |] eqn:Hf; [| discriminate Hw].
  cbn [option_map] in Hw. injection Hw as Hw.
  assert (Hr : reachable example_params f).
  { apply (reachable_on_pcm_loop example_params failed_attempts
             example_new_decoder f); [| exact Hf].
    apply (reachable_new example_params example_code 929612500
             (Ptr example_callback)).
    reflexivity. }
  exists f. split; [reflexivity |]. split; [exact Hr |].
  split; [exact Hw |].
  destruct (sync_words_ring example_params _ Hr) as [_ Hpush].
  rewrite (proj1 (Hpush 7 ltac:(rewrite Hw; reflexivity))).
  rewrite Hw. reflexivity.
Defined.

(** ** A failed inverted A word *)

Lemma sync_eta (s : pager_flex_sync) :
  mk_sync (sync_words s) (sync_state s) (sample_counter s) (bit_counter s)
    (a s) (b s) (inv_a s) (fiw s) (coding s) = s.
Proof. now destruct s. Qed.

Lemma sync_on_bit_sample_counter P s bit :
  sample_counter s = 0 -> sample_counter (sync_on_bit P s bit) = 0.
Proof.
  intros Hs. unfold sync_on_bit.
  destruct (sync_state s);
    repeat match goal with
      | |- context [if ?cond then _ else _] => destruct cond
      | |- context [match find_coding ?P ?w with _ => _ end] =>
          destruct (find_coding P w)
      end; cbn; auto.
Qed.

(** The ten samples of a bit period are one bit for the state machine. *)
Lemma sync_update_period P s period :
  sample_counter s = 0 -> List.length period = 10%nat ->
  fold_left (pager_flex_sync_update P) period s
  = sync_on_bit P s (period_bit period).
Proof.
  intros Hs Hlen.
  do 10 (destruct period as [| ? period]; [discriminate Hlen |]).
  destruct period; [| discriminate Hlen].
  destruct s as [ws st sc bc ra rb ri rf cd]. cbn in Hs. subst sc.
  reflexivity.
Qed.

Lemma sync_update_periods P periods :
  forall s,
    sample_counter s = 0 ->
    Forall (fun period => List.length period = 10%nat) periods ->
    fold_left (pager_flex_sync_update P) (List.concat periods) s
    = fold_left (sync_on_bit P) (map period_bit periods) s.
Proof.
  induction periods as [| period periods IH]; intros s Hs Hall;
    [reflexivity |].
  apply Forall_cons_iff in Hall as [Hlen Hrest].
  cbn [List.concat map fold_left]. rewrite fold_left_app.
  rewrite (sync_update_period P s period Hs Hlen).
  apply IH; [now apply sync_on_bit_sample_counter | assumption].
Qed.

Lemma inv_a_accumulate P bits :
  forall s,
    sync_state s = PAGER_FLEX_SYNC_STATE_INV_A ->
    0 <= bit_counter s ->
    bit_counter s + Z.of_nat (List.length bits) < 32 ->
    fold_left (sync_on_bit P) bits s
    = set_inv_a (fold_left (shift_in 32) bits (inv_a s))
        (set_bit_counter (bit_counter s + Z.of_nat (List.length bits)) s).
Proof.
  induction bits as [| bit bits IH]; intros s Hst Hbc Hlen.
  - cbn. rewrite Z.add_0_r. now destruct s.
  - cbn [fold_left List.length] in *.
    assert (Hstep : sync_on_bit P s bit
                    = set_inv_a (shift_in 32 (inv_a s) bit)
                        (set_bit_counter (bit_counter s + 1) s)).
    { unfold sync_on_bit. rewrite Hst. unfold u8.
      rewrite Z.mod_small by lia.
      destruct (Z.ltb_spec (bit_counter s + 1) 32); [reflexivity | lia]. }
    rewrite Hstep, IH; cbn; try lia; [| assumption].
    unfold set_inv_a, set_bit_counter. cbn. f_equal. lia.
Qed.

(** C4. A Sync 1 tracker that matched the preamble, the A word and the B
    word is in INV_A; when the 32 bits it accumulates there differ from the
    complement of the matched A word in more bits than the tolerance, the
    tracker is in SEARCH_BS1 after the last of them, and its sample counter,
    bit counter and accumulators [a], [b], [inv_a], [fiw] are 0, as in a new
    tracker. *)
Theorem inv_a_mismatch_resets (P : flex_params) (s : pager_flex_sync)
  (periods : list (list Z)) :
  sync_state s = PAGER_FLEX_SYNC_STATE_INV_A ->
  sample_counter s = 0 -> bit_counter s = 0 ->
  List.length periods = 32%nat ->
  Forall (fun period => List.length period = 10%nat) periods ->
  sync_tolerance P
  < hamming32 (fold_left (shift_in 32) (map period_bit periods) (inv_a s))
      (lnot32 (a s)) ->
  let s' := fold_left (pager_flex_sync_update P) (List.concat periods) s in
  sync_state s' = PAGER_FLEX_SYNC_STATE_SEARCH_BS1
  /\ sample_counter s' = sample_counter pager_flex_sync_init
  /\ bit_counter s' = bit_counter pager_flex_sync_init
  /\ a s' = a pager_flex_sync_init
  /\ b s' = b pager_flex_sync_init
  /\ inv_a s' = inv_a pager_flex_sync_init
  /\ fiw s' = fiw pager_flex_sync_init.
Proof.
  intros Hst Hsc Hbc Hlen Hall Hbad s'. subst s'.
  rewrite sync_update_periods by assumption.
  assert (Hbits : List.length (map period_bit periods) = 32%nat)
    by now rewrite length_map.
  revert Hbad. generalize dependent (map period_bit periods).
  intros bits Hbits Hbad.
  destruct (exists_last (l := bits)) as [front [bit ->]];
    [now destruct bits |].
  rewrite length_app in Hbits. cbn [List.length] in Hbits.
  rewrite fold_left_app in *. cbn [fold_left] in *.
  rewrite inv_a_accumulate by first [assumption | rewrite ?Hbc; lia].
  rewrite Hbc.
  replace (0 + Z.of_nat (List.length front)) with 31 by lia.
  unfold sync_on_bit.
  cbn [sync_state set_inv_a set_bit_counter set_sync_words sync_words
       bit_counter inv_a a].
  rewrite Hst. change (u8 (31 + 1) <? 32) with false. cbv iota.
  apply Z.leb_gt in Hbad. rewrite Hbad. cbn. tauto.
Qed.

Lemma inv_a_mismatch_resets_witness :
  let s' := fold_left (pager_flex_sync_update example_params)
              (sync_1_samples 32 0x870CA6C6) example_inv_a_tracker in
  sync_state s' = PAGER_FLEX_SYNC_STATE_SEARCH_BS1
  /\ sample_counter s' = 0 /\ bit_counter s' = 0
  /\ a s' = 0 /\ b s' = 0 /\ inv_a s' = 0 /\ fiw s' = 0.
Proof.
  apply (inv_a_mismatch_resets example_params example_inv_a_tracker
           (map (fun x => repeat x 10) (samples_of_word 32 0x870CA6C6))).
  all: try reflexivity.
  repeat constructor.
Defined.

End FlexFacts.

(* ################################################################# *)
(** * Further properties of the parsers *)

Module ParsersMore.
Import Parsers ParsersFacts.

(** ** What [strtoull] reads *)

Lemma digit_val_nonneg (c : ascii) (d : Z) : digit_val c = Some d -> 0 <= d.
Proof.
  unfold digit_val.
  repeat match goal with
    | |- context [if ?cond then _ else _] => destruct cond eqn:?
    end; intros [= <-]; lia.
Qed.

Lemma digits_value_nonneg (base : Z) (s : string) :
  forall acc, 0 <= base -> 0 <= acc -> 0 <= digits_value base acc s.
Proof.
  induction s as [| c s IH]; intros acc Hb Hacc; cbn [digits_value];
    [exact Hacc |].
  destruct (digit_val c) as [d |] eqn:Hd; [| exact Hacc].
  apply IH; [exact Hb |]. pose proof (digit_val_nonneg c d Hd). nia.
Qed.

Lemma scan_digits_app (base : Z) (s rest : string) :
  forall acc any,
    all_digits base s = true -> is_digit_of base (deref rest) = false ->
    scan_digits base acc any (s ++ rest)%string
    = (digits_value base acc s,
       any || negb (String.eqb s EmptyString), rest).
Proof.
  induction s as [| c s IH]; intros acc any Hs Hrest.
  - cbn [append digits_value String.eqb negb]. rewrite orb_false_r.
    destruct rest as [| c r]; [reflexivity |].
    cbn [scan_digits]. cbn [deref] in Hrest. unfold is_digit_of in Hrest.
    destruct (digit_val c); [now rewrite Hrest | reflexivity].
  - cbn [all_digits] in Hs. apply andb_true_iff in Hs as [Hc Hs].
    cbn [append scan_digits digits_value]. unfold is_digit_of in Hc.
    destruct (digit_val c) as [d |]; [| discriminate].
    rewrite Hc, IH by assumption. cbn. now rewrite orb_true_r.
Qed.

Lemma skip_space_app (ws t : string) :
  all_space ws = true -> isspace (deref t) = false ->
  skip_space (ws ++ t)%string = t.
Proof.
  intros Hws Ht. induction ws as [| c ws IH].
  - destruct t as [| c r]; [reflexivity |].
    cbn [append skip_space]. cbn [deref] in Ht. now rewrite Ht.
  - cbn [all_space] in Hws. apply andb_true_iff in Hws as [Hc Hws].
    cbn [append skip_space]. rewrite Hc. now apply IH.
Qed.

(** A digit of a base up to 16 is no white space and no sign. *)
Lemma digit_not_space_sign (base : Z) (c : ascii) :
  is_digit_of base c = true ->
  isspace c = false /\ c <> "+"%char /\ c <> "-"%char.
Proof.
  unfold is_digit_of. intros H.
  destruct c as [[] [] [] [] [] [] [] []]; cbn in H |- *;
    first [discriminate H | repeat split; discriminate].
Qed.

Lemma append_assoc (x y z : string) :
  ((x ++ y) ++ z = x ++ (y ++ z))%string.
Proof. induction x as [| c x IH]; cbn; [reflexivity | now rewrite IH]. Qed.

Lemma octal_digit_not_x (c : ascii) :
  is_digit_of 8 c = true ->
  Ascii.eqb c "x" = false /\ Ascii.eqb c "X" = false.
Proof.
  unfold is_digit_of.
  destruct c as [[] [] [] [] [] [] [] []]; cbn; intros H;
    first [discriminate H | split; reflexivity].
Qed.

Lemma decimal_digit_nonzero_base (c : ascii) (r : string) :
  is_digit_of 10 c = true -> Ascii.eqb c "0" = false ->
  scan_base (String c r) = (10, String c r).
Proof.
  unfold is_digit_of.
  destruct c as [[] [] [] [] [] [] [] []]; cbn; intros H H0;
    first [discriminate H | discriminate H0 | reflexivity].
Qed.

(** The base and the digits [strtoull] goes on with after the sign. *)
Lemma scan_numeral (form : numeral_form) (s rest : string) :
  numeral_digits form s = true ->
  is_digit_of (numeral_base form) (deref rest) = false ->
  (let '(base, s2) := scan_base (numeral_prefix form ++ s ++ rest) in
   scan_digits base 0 false s2)
  = (numeral_value form s, true, rest).
Proof.
  unfold numeral_digits, numeral_value. intros Hs Hrest.
  apply andb_true_iff in Hs as [Hall Hhead].
  destruct s as [| c s]; [discriminate Hhead |].
  pose proof Hall as Hc. cbn [all_digits] in Hc.
  apply andb_true_iff in Hc as [Hc _].
  destruct form as [| | upper]; cbn [numeral_prefix numeral_base] in *.
  - apply negb_true_iff in Hhead. cbn [append].
    rewrite (decimal_digit_nonzero_base c _ Hc Hhead).
    change (String c (s ++ rest)) with (String c s ++ rest)%string.
    now rewrite scan_digits_app.
  - destruct (octal_digit_not_x c Hc) as [Hx HX].
    cbn [append scan_base]. rewrite Hx, HX. cbn [orb andb].
    change (String "0" (String c (s ++ rest)))
      with (String "0" (String c s) ++ rest)%string.
    rewrite scan_digits_app; [reflexivity | | exact Hrest].
    cbn [all_digits]. cbn [all_digits] in Hall. now rewrite Hall.
  - assert (Hb : scan_base
                   (numeral_prefix (Hexadecimal upper) ++ String c s ++ rest)
                 = (16, (String c s ++ rest)%string)).
    { destruct upper; cbn; now rewrite Hc. }
    cbn [numeral_prefix] in Hb. rewrite Hb.
    now rewrite scan_digits_app.
Qed.

Lemma numeral_head (form : numeral_form) (s rest : string) :
  numeral_digits form s = true ->
  exists c r, (numeral_prefix form ++ s ++ rest)%string = String c r
              /\ is_digit_of 10 c = true.
Proof.
  unfold numeral_digits. intros Hs.
  apply andb_true_iff in Hs as [Hall Hhead].
  destruct s as [| c s]; [discriminate Hhead |].
  destruct form as [| | []]; cbn; eauto.
  cbn in Hall. apply andb_true_iff in Hall as [Hc _]. eauto.
Qed.

(** [strtoull] on a numeral followed by [rest]: the value of the digits in
    the base of the numeral, saturated at [ULLONG_MAX] and negated after a
    minus sign, and [endptr] at [rest]. *)
Lemma strtoull_numeral (ws : string) (sg : sign) (form : numeral_form)
  (s rest : string) :
  all_space ws = true -> numeral_digits form s = true ->
  is_digit_of (numeral_base form) (deref rest) = false ->
  strtoull (numeral_text ws sg form s ++ rest)
  = (number_read sg (numeral_value form s), rest).
Proof.
  intros Hws Hs Hrest. unfold strtoull, numeral_text.
  rewrite !append_assoc.
  destruct (numeral_head form s rest Hs) as [c [r [Hbody Hc]]].
  destruct (digit_not_space_sign 10 c Hc) as [Hsp [Hplus Hminus]].
  pose proof (scan_numeral form s rest Hs Hrest) as Hscan.
  assert (Hsign : scan_sign
                    (sign_text sg ++ numeral_prefix form ++ s ++ rest)
                  = (match sg with Minus => true | _ => false end,
                     (numeral_prefix form ++ s ++ rest)%string)).
  { destruct sg; cbn [sign_text append scan_sign]; try reflexivity.
    rewrite Hbody. destruct c as [[] [] [] [] [] [] [] []];
      first [reflexivity | now elim Hplus | now elim Hminus]. }
  rewrite skip_space_app; [| exact Hws |].
  - rewrite Hsign.
    destruct (scan_base (numeral_prefix form ++ s ++ rest)) as [base s2].
    rewrite Hscan. unfold number_read. now destruct sg.
  - destruct sg; cbn [sign_text append deref]; try reflexivity.
    rewrite Hbody. exact Hsp.
Qed.

(** ** [tsl_parse_time_interval] on every input *)

(** X1. [tsl_parse_time_interval] never changes [*val]: whatever its
    arguments, [val] and what it points to are after the call what they were
    before. *)
Theorem tsl_parse_time_interval_never_stores
  (str : pointer string) (val : pointer Z) :
  snd (tsl_parse_time_interval str val) = val.
Proof.
  destruct str as [| s], val as [| old]; try reflexivity.
  unfold tsl_parse_time_interval. cbn.
  destruct (strtoull s) as [n rest].
  destruct ((n =? 0) || Ascii.eqb (deref rest) Ascii.zero); [reflexivity |].
  destruct (time_switch n (deref rest)); [| reflexivity].
  now rewrite time_final_check_always.
Qed.

(** X2. For non-null arguments [tsl_parse_time_interval] returns [A_OK]
    exactly when the number read is 0 or the terminator follows it, and
    [A_E_INVAL] exactly when a number other than 0 is followed by any
    character at all. *)
Theorem tsl_parse_time_interval_result
  (s : string) (old n : Z) (rest : string) :
  strtoull s = (n, rest) ->
  let r := fst (tsl_parse_time_interval (Ptr s) (Ptr old)) in
  (r = A_OK <-> n = 0 \/ deref rest = Ascii.zero)
  /\ (r = A_E_INVAL <-> n <> 0 /\ deref rest <> Ascii.zero).
Proof.
  intros Hn r.
  assert (Hres : tsl_parse_time_interval (Ptr s) (Ptr old)
                 = if (n =? 0) || Ascii.eqb (deref rest) Ascii.zero
                   then (A_OK, Ptr old) else (A_E_INVAL, Ptr old)).
  { unfold tsl_parse_time_interval. cbn. rewrite Hn.
    destruct ((n =? 0) || Ascii.eqb (deref rest) Ascii.zero);
      [reflexivity |].
    destruct (time_switch n (deref rest)); [| reflexivity].
    now rewrite time_final_check_always. }
  subst r. rewrite Hres.
  destruct (Z.eqb_spec n 0) as [Hz | Hnz];
    destruct (Ascii.eqb_spec (deref rest) Ascii.zero) as [Hr | Hnr];
    cbn [orb fst]; split; split;
    first [ tauto | discriminate | intros [? ?]; tauto
          | intros [? | ?]; tauto ].
Qed.

Lemma tsl_parse_time_interval_result_witness :
  fst (tsl_parse_time_interval (Ptr "5 "%string) (Ptr 7)) = A_E_INVAL.
Proof.
  apply (proj2 (tsl_parse_time_interval_result "5 " 7 5 " " eq_refl)).
  split; discriminate.
Defined.

(** ** [tsl_parse_mem_bytes] on numerals *)

Lemma mem_bytes_result (s : string) (old n : Z) (rest : string) :
  strtoull s = (n, rest) ->
  tsl_parse_mem_bytes (Ptr s) (Ptr old)
  = (A_OK, Ptr (mem_scaled n (deref rest))).
Proof.
  intros Hn. unfold tsl_parse_mem_bytes. cbn. rewrite Hn.
  pose proof (mem_switch_scaled n rest) as Hsw.
  destruct (mem_switch n rest) as [memval endptr]. cbn in Hsw.
  now subst memval.
Qed.

Lemma mem_shift_range (c : ascii) : 0 <= mem_shift c <= 60.
Proof.
  unfold mem_shift.
  repeat match goal with
    | |- context [if ?cond then _ else _] => destruct cond
    end; lia.
Qed.

Lemma mem_scaled_mul (n : Z) (c : ascii) :
  0 <= n < 2 ^ 64 -> mem_scaled n c = u64 (n * 2 ^ mem_shift c).
Proof.
  intros Hn. unfold mem_scaled, mem_shift, u64.
  repeat match goal with
    | |- context [if ?cond then _ else _] => destruct cond
    end; rewrite ?Z.shiftl_mul_pow2 by lia; try reflexivity.
  rewrite Z.mul_1_r, Z.mod_small; lia.
Qed.

Lemma numeral_value_nonneg (form : numeral_form) (s : string) :
  0 <= numeral_value form s.
Proof.
  apply digits_value_nonneg; [destruct form; cbn; lia | lia].
Qed.

(** X3. A decimal, octal ([0...]) or hexadecimal ([0x...]) numeral, after
    optional white space and an optional [+], followed by any text: when the
    value of the numeral times 1024 per unit step of the first character of
    that text fits 64 bits, [tsl_parse_mem_bytes] returns [A_OK] and stores
    exactly that product. What follows the unit character is not looked
    at. *)
Theorem tsl_parse_mem_bytes_numeral
  (ws : string) (sg : sign) (form : numeral_form) (s rest : string)
  (old : Z) :
  all_space ws = true -> sg <> Minus -> numeral_digits form s = true ->
  is_digit_of (numeral_base form) (deref rest) = false ->
  numeral_value form s * 2 ^ mem_shift (deref rest) < 2 ^ 64 ->
  tsl_parse_mem_bytes (Ptr (numeral_text ws sg form s ++ rest)%string)
    (Ptr old)
  = (A_OK, Ptr (numeral_value form s * 2 ^ mem_shift (deref rest))).
Proof.
  intros Hws Hsg Hs Hrest Hfit.
  pose proof (numeral_value_nonneg form s) as Hv.
  pose proof (mem_shift_range (deref rest)) as Hk.
  assert (Hpow : 1 <= 2 ^ mem_shift (deref rest))
    by (apply (Z.pow_le_mono_r 2 0); lia).
  rewrite (mem_bytes_result _ _ _ _ (strtoull_numeral ws sg form s rest
                                       Hws Hs Hrest)).
  assert (Hread : number_read sg (numeral_value form s)
                  = numeral_value form s).
  { unfold number_read, ULLONG_MAX.
    destruct (Z.ltb_spec (2 ^ 64 - 1) (numeral_value form s)); [nia |].
    now destruct sg. }
  rewrite Hread, mem_scaled_mul by nia.
  unfold u64. rewrite Z.mod_small by nia. reflexivity.
Qed.

Lemma tsl_parse_mem_bytes_numeral_witness :
  tsl_parse_mem_bytes (Ptr " +0x10Mib"%string) (Ptr 7)
  = (A_OK, Ptr (16 * 2 ^ 20)).
Proof.
  apply (tsl_parse_mem_bytes_numeral " " Plus (Hexadecimal false) "10"
           "Mib" 7); first [reflexivity | discriminate].
Defined.

(** X4. A numeral whose value is above [ULLONG_MAX] is no error for
    [tsl_parse_mem_bytes]: it returns [A_OK] and stores [ULLONG_MAX] shifted
    by the unit, which is 2^64 - 2^shift. *)
Theorem tsl_parse_mem_bytes_saturates
  (ws : string) (sg : sign) (form : numeral_form) (s rest : string)
  (old : Z) :
  all_space ws = true -> numeral_digits form s = true ->
  is_digit_of (numeral_base form) (deref rest) = false ->
  ULLONG_MAX < numeral_value form s ->
  tsl_parse_mem_bytes (Ptr (numeral_text ws sg form s ++ rest)%string)
    (Ptr old)
  = (A_OK, Ptr (2 ^ 64 - 2 ^ mem_shift (deref rest))).
Proof.
  intros Hws Hs Hrest Hbig.
  rewrite (mem_bytes_result _ _ _ _ (strtoull_numeral ws sg form s rest
                                       Hws Hs Hrest)).
  unfold number_read. apply Z.ltb_lt in Hbig. rewrite Hbig.
  do 2 f_equal. unfold mem_scaled, mem_shift.
  repeat match goal with
    | |- context [if ?cond then _ else _] => destruct cond
    end; reflexivity.
Qed.

Lemma tsl_parse_mem_bytes_saturates_witness :
  tsl_parse_mem_bytes (Ptr "18446744073709551616K"%string) (Ptr 7)
  = (A_OK, Ptr (2 ^ 64 - 2 ^ 10)).
Proof.
  apply (tsl_parse_mem_bytes_saturates "" NoSign Decimal
           "18446744073709551616" "K" 7); reflexivity.
Defined.

(** X5. A numeral after a minus sign is no error for [tsl_parse_mem_bytes]:
    for a value up to [ULLONG_MAX] it returns [A_OK] and stores the negated
    product of the value and the unit, modulo 2^64. *)
Theorem tsl_parse_mem_bytes_negative
  (ws : string) (form : numeral_form) (s rest : string) (old : Z) :
  all_space ws = true -> numeral_digits form s = true ->
  is_digit_of (numeral_base form) (deref rest) = false ->
  numeral_value form s <= ULLONG_MAX ->
  tsl_parse_mem_bytes (Ptr (numeral_text ws Minus form s ++ rest)%string)
    (Ptr old)
  = (A_OK,
     Ptr (u64 (- (numeral_value form s * 2 ^ mem_shift (deref rest))))).
Proof.
  intros Hws Hs Hrest Hsmall.
  rewrite (mem_bytes_result _ _ _ _ (strtoull_numeral ws Minus form s rest
                                       Hws Hs Hrest)).
  unfold number_read. apply Z.ltb_ge in Hsmall. rewrite Hsmall.
  rewrite mem_scaled_mul
    by (unfold u64; apply Z.mod_pos_bound; lia).
  unfold u64. rewrite Z.mul_mod_idemp_l by lia.
  do 3 f_equal. ring.
Qed.

Lemma tsl_parse_mem_bytes_negative_witness :
  tsl_parse_mem_bytes (Ptr "-1K"%string) (Ptr 7)
  = (A_OK, Ptr (2 ^ 64 - 1024)).
Proof.
  apply (tsl_parse_mem_bytes_negative "" Decimal "1" "K" 7);
    first [reflexivity | vm_compute; discriminate].
Defined.

(** ** Texts without a number *)

Lemma strtoull_no_number (s : string) :
  no_number s = true -> strtoull s = (0, s).
Proof.
  destruct s as [| c r]; [reflexivity |].
  unfold no_number, is_digit_of.
  destruct c as [[] [] [] [] [] [] [] []]; cbn; intros H;
    first [discriminate H | reflexivity].
Qed.

Lemma mem_scaled_0 (c : ascii) : mem_scaled 0 c = 0.
Proof.
  unfold mem_scaled.
  repeat match goal with
    | |- context [if ?cond then _ else _] => destruct cond
    end; reflexivity.
Qed.

(** X6. A text with no number at its start (the empty text, or one that
    starts with a character that is no white space, sign or decimal digit)
    is not rejected: [tsl_parse_mem_bytes] returns [A_OK] and stores 0,
    also when the text starts with a unit; [tsl_parse_time_interval] returns
    [A_OK] and leaves [*val] as it was. *)
Theorem parsers_accept_no_number (s : string) (old : Z) :
  no_number s = true ->
  tsl_parse_mem_bytes (Ptr s) (Ptr old) = (A_OK, Ptr 0)
  /\ tsl_parse_time_interval (Ptr s) (Ptr old) = (A_OK, Ptr old).
Proof.
  intros Hs. pose proof (strtoull_no_number s Hs) as Hn. split.
  - rewrite (mem_bytes_result s old 0 s Hn). now rewrite mem_scaled_0.
  - unfold tsl_parse_time_interval. cbn. now rewrite Hn.
Qed.

Lemma parsers_accept_no_number_witness :
  tsl_parse_mem_bytes (Ptr "Kilo"%string) (Ptr 7) = (A_OK, Ptr 0)
  /\ tsl_parse_time_interval (Ptr "Kilo"%string) (Ptr 7) = (A_OK, Ptr 7).
Proof. apply (parsers_accept_no_number "Kilo" 7). reflexivity. Defined.

End ParsersMore.

(* ################################################################# *)
(** * Properties of the build script *)

Module WscriptFacts.
Import Wscript.

Local Open Scope string_scope.
Local Open Scope list_scope.

Lemma mem_In (x : string) (l : list string) : mem x l = true <-> In x l.
Proof.
  unfold mem. rewrite existsb_exists. split.
  - intros [y [Hin Heq]]. apply String.eqb_eq in Heq. now subst.
  - intros Hin. exists x. split; [exact Hin | apply String.eqb_refl].
Qed.

Lemma In_app_new (x : string) (l added : list string) :
  ~ In x l -> (In x (l ++ added) <-> mem x added = true).
Proof.
  intros Hl. rewrite in_app_iff, mem_In. tauto.
Qed.

(** The lists [configure] leaves, by the options. *)
Lemma configure_lists (options : build_options) (e : build_env) :
  let e' := fst (configure options e) in
  CFLAGS e'
  = CFLAGS e ++ common_CFLAGS
    ++ (if debug options then ["-O0"]
        else ["-O2"; "-march=native"; "-mtune=native"])
  /\ DEFINES e'
     = DEFINES e
       ++ ["_ATS_IN_TREE"; "_GNU_SOURCE"; "SYS_CACHE_LINE_LENGTH=64"]
       ++ (if debug options || tsl_debug options then ["_TSL_DEBUG"] else [])
       ++ (if debug options then ["_AWESOME_PANIC_MESSAGE"] else ["NDEBUG"])
       ++ ["TSL_POINTER_SIZE=8";
           ("CONFIG_DIRECTORY_DEFAULT=" ++ double_quote ++ "/etc/tsl"
            ++ double_quote)%string]
  /\ INCLUDES e' = INCLUDES e ++ ["."]
  /\ LIBPATH e' = LIBPATH e ++ ["/usr/lib/x86_64-linux-gnu"]
  /\ LIB e' = LIB e ++ ["pthread"; "rt"; "jansson"; "dl"]
  /\ LDFLAGS e' = LDFLAGS e ++ ["-rdynamic"]
  /\ ASFLAGS e' = ASFLAGS e ++ ["-f"; "elf64"].
Proof.
  destruct options as [[] []]; cbn -[common_CFLAGS append];
    rewrite <- ?app_assoc; cbn -[common_CFLAGS append];
    repeat split; reflexivity.
Qed.

(** X7. [configure] only adds: the flags, defines, include and library
    paths, libraries, linker and assembler flags that the tools left in the
    environment are all still there, in the same order, before what
    [configure] appends. *)
Theorem configure_only_appends (options : build_options) (e : build_env) :
  let e' := fst (configure options e) in
  extends (CFLAGS e) (CFLAGS e') /\ extends (DEFINES e) (DEFINES e')
  /\ extends (INCLUDES e) (INCLUDES e') /\ extends (LIBPATH e) (LIBPATH e')
  /\ extends (LIB e) (LIB e') /\ extends (LDFLAGS e) (LDFLAGS e')
  /\ extends (ASFLAGS e) (ASFLAGS e').
Proof.
  destruct (configure_lists options e) as (Hc & Hd & Hi & Hp & Hl & Hf & Ha).
  cbv zeta. rewrite Hc, Hd, Hi, Hp, Hl, Hf, Ha.
  unfold extends. repeat split; eexists; reflexivity.
Qed.

(** X8. Configuring an environment that has no optimisation level and none
    of [NDEBUG], [_TSL_DEBUG], [_AWESOME_PANIC_MESSAGE] yet: a debug build
    is [-O0] with [_AWESOME_PANIC_MESSAGE] and without [NDEBUG], a release
    build is [-O2] with [NDEBUG] and without [_AWESOME_PANIC_MESSAGE];
    [_TSL_DEBUG] is defined exactly for [--debug] or [--tsl-debug] (also in
    a release build); [ENVIRONMENT] is [debug] or [release] accordingly. *)
Theorem configure_debug_release (options : build_options) (e : build_env) :
  unconfigured e ->
  let e' := fst (configure options e) in
  (In "-O0" (CFLAGS e') <-> debug options = true)
  /\ (In "-O2" (CFLAGS e') <-> debug options = false)
  /\ (In "_AWESOME_PANIC_MESSAGE" (DEFINES e') <-> debug options = true)
  /\ (In "NDEBUG" (DEFINES e') <-> debug options = false)
  /\ (In "_TSL_DEBUG" (DEFINES e')
      <-> debug options || tsl_debug options = true)
  /\ ENVIRONMENT e' = Some (if debug options then "debug" else "release").
Proof.
  intros (HO0 & HO2 & Hnd & Htd & Hpm).
  destruct (configure_lists options e) as (Hc & Hd & _).
  cbv zeta. rewrite Hc, Hd.
  rewrite (In_app_new "-O0" _ _ HO0), (In_app_new "-O2" _ _ HO2),
    (In_app_new "NDEBUG" _ _ Hnd), (In_app_new "_TSL_DEBUG" _ _ Htd),
    (In_app_new "_AWESOME_PANIC_MESSAGE" _ _ Hpm).
  destruct options as [[] []]; vm_compute; intuition congruence.
Qed.

Lemma configure_debug_release_witness :
  let e' := fst (configure {| debug := false; tsl_debug := true |}
                   (mk_env [] [] [] [] [] [] [] None)) in
  In "NDEBUG" (DEFINES e') /\ In "_TSL_DEBUG" (DEFINES e')
  /\ In "-O2" (CFLAGS e') /\ ENVIRONMENT e' = Some "release".
Proof.
  assert (Hu : unconfigured (mk_env [] [] [] [] [] [] [] None))
    by (unfold unconfigured; cbn; tauto).
  destruct (configure_debug_release {| debug := false; tsl_debug := true |}
              _ Hu) as (_ & HO2 & _ & Hnd & Htd & Henv).
  cbv zeta. split; [now apply Hnd |]. split; [now apply Htd |].
  split; [now apply HO2 | exact Henv].
Defined.

(** X9. [--debug] is a superset of [--tsl-debug]: with [--debug] the result
    of [configure] is the same whether [--tsl-debug] is given or not. What
    [--tsl-debug] alone changes in a release build is one entry of
    [DEFINES], [_TSL_DEBUG], put in among the entries of the plain release
    build, which keep their order, and the message about it after the other
    messages; [CFLAGS], [INCLUDES], [LIBPATH], [LIB], [LDFLAGS], [ASFLAGS]
    and [ENVIRONMENT] are those of the plain release build. *)
Theorem debug_superset_of_tsl_debug (e : build_env) :
  (forall d, configure {| debug := true; tsl_debug := d |} e
             = configure {| debug := true; tsl_debug := true |} e)
  /\ (let plain := configure {| debug := false; tsl_debug := false |} e in
      let with_D := configure {| debug := false; tsl_debug := true |} e in
      CFLAGS (fst with_D) = CFLAGS (fst plain)
      /\ INCLUDES (fst with_D) = INCLUDES (fst plain)
      /\ LIBPATH (fst with_D) = LIBPATH (fst plain)
      /\ LIB (fst with_D) = LIB (fst plain)
      /\ LDFLAGS (fst with_D) = LDFLAGS (fst plain)
      /\ ASFLAGS (fst with_D) = ASFLAGS (fst plain)
      /\ ENVIRONMENT (fst with_D) = ENVIRONMENT (fst plain)
      /\ (exists before after,
             DEFINES (fst plain) = before ++ after
             /\ DEFINES (fst with_D) = before ++ "_TSL_DEBUG" :: after)
      /\ snd with_D = snd plain ++ [mk_msg "Defining" "_TSL_DEBUG" "CYAN"]).
Proof.
  split; [intros []; reflexivity |].
  cbv zeta. repeat (split; [reflexivity |]).
  split; [| reflexivity].
  exists (DEFINES e
          ++ ["_ATS_IN_TREE"; "_GNU_SOURCE"; "SYS_CACHE_LINE_LENGTH=64"]),
    ["NDEBUG"; "TSL_POINTER_SIZE=8";
     ("CONFIG_DIRECTORY_DEFAULT=" ++ double_quote ++ "/etc/tsl"
      ++ double_quote)%string].
  split; cbn -[append]; rewrite <- ?app_assoc; reflexivity.
Qed.

End WscriptFacts.
